(** * teryt-autocomplete: the in-memory loader and search engine

    A shallow embedding of [loaders.go] and of the search operations of
    [main.go].  A Go [string] is a sequence of bytes and is modelled by
    [string] (a sequence of 8-bit [ascii]); a Go [int] is modelled by [Z]
    (64-bit platform, the only place where the width matters is
    [strconv.Atoi]); slices are lists; [map[string]bool] is a
    [gmap string bool].  The reader/writer lock only serialises accesses and
    is not modelled: every operation is a function of the dataset it sees. *)

From Stdlib Require Import ZArith Lia Ascii String DecimalString DecimalPos DecimalZ.
From stdpp Require Import base gmap strings list sorting.

Open Scope string_scope.
Open Scope list_scope.
Open Scope Z_scope.

(** ** What the Go runtime and standard library provide

    The Unicode tables behind [strings.ToLower] and [strings.TrimSpace], the
    allocator limit behind [make] and the algorithm of [sort.Slice] are not
    code of the repository.  They are taken as an interface; the ASCII fast
    paths of the string functions are modelled below as the library writes
    them. *)

(** [sort.Slice] is not stable and its algorithm is unspecified.  Its
    documented contract: the slice is permuted, and when [less] is a
    transitive ordering whose incomparability is transitive too, no element
    of the result is [less] than an element before it. *)
Definition less_ordering {A} (less : A → A → bool) : Prop :=
  (∀ x, less x x = false) ∧
  (∀ x y z, less x y = true → less y z = true → less x z = true) ∧
  (∀ x y z, less x y = false → less y z = false → less x z = false).

Definition not_after {A} (less : A → A → bool) (x y : A) : Prop :=
  less y x = false.

Class GoRuntime := {
  (** [strings.Map(unicode.ToLower, s)], the path of [strings.ToLower] for a
      string with a byte outside ASCII *)
  MapToLower : string → string;
  (** [strings.TrimFunc(s, unicode.IsSpace)] *)
  TrimFuncIsSpace : string → string;
  (** [strings.TrimRightFunc(s, unicode.IsSpace)] *)
  TrimRightFuncIsSpace : string → string;
  (** the largest number of bytes [make] allocates *)
  maxAlloc : Z;
  maxAlloc_nonneg : 0 ≤ maxAlloc;
  (** every rune is mapped to a rune, which takes a byte at least *)
  MapToLower_nonempty : ∀ s, s ≠ EmptyString → MapToLower s ≠ EmptyString;
  sort_Slice : ∀ {A}, (A → A → bool) → list A → list A;
  sort_Slice_perm : ∀ A (less : A → A → bool) l, sort_Slice less l ≡ₚ l;
  sort_Slice_sorted : ∀ A (less : A → A → bool) l,
    less_ordering less → StronglySorted (not_after less) (sort_Slice less l);
}.

(** A call either returns a value or panics. *)
Inductive outcome (A : Type) : Type :=
  | Returns (a : A)
  | Panics.
Arguments Returns {A} a.
Arguments Panics {A}.

(** [make([]T, 0, cap)] for an element type of [size] bytes: the runtime's
    [makeslice] panics when [cap] is negative or [cap * size] exceeds what
    can be allocated. *)
Definition makeslice `{GoRuntime} (size cap : Z) : bool :=
  (0 <=? cap) && (cap * size <=? maxAlloc).

(** Sizes of the two record structs on a 64-bit platform: an [int] takes 8
    bytes and a [string] header 16. *)
Definition sizeof_StreetRecord : Z := 6 * 8 + 4 * 16.
Definition sizeof_CityRecord : Z := 8 * 8 + 1 * 16.

(** ** package strings *)

Definition byte_val (c : ascii) : N := N_of_ascii c.

(** [c < utf8.RuneSelf] *)
Definition is_ascii_byte (c : ascii) : bool := (byte_val c <? 128)%N.

Fixpoint all_bytes (p : ascii → bool) (s : string) : bool :=
  match s with
  | EmptyString => true
  | String c t => p c && all_bytes p t
  end.

Fixpoint map_bytes (f : ascii → ascii) (s : string) : string :=
  match s with
  | EmptyString => EmptyString
  | String c t => String (f c) (map_bytes f t)
  end.

(** ['A' <= c && c <= 'Z'] then [c += 'a' - 'A'] *)
Definition lower_byte (c : ascii) : ascii :=
  if ((65 <=? byte_val c) && (byte_val c <=? 90))%N
  then ascii_of_N (byte_val c + 32) else c.

Definition ToLower `{GoRuntime} (s : string) : string :=
  if all_bytes is_ascii_byte s then map_bytes lower_byte s else MapToLower s.

(** the table [asciiSpace]: tab, newline, vertical tab, form feed, carriage
    return and space *)
Definition asciiSpace (c : ascii) : bool :=
  ((9 <=? byte_val c) && (byte_val c <=? 13) || (byte_val c =? 32))%N.

Fixpoint rev_bytes (s : string) (acc : list ascii) : list ascii :=
  match s with
  | EmptyString => acc
  | String c t => rev_bytes t (c :: acc)
  end.

Fixpoint unrev_bytes (r : list ascii) (acc : string) : string :=
  match r with
  | [] => acc
  | c :: r' => unrev_bytes r' (String c acc)
  end.

(** The second loop of [TrimSpace], from the end of [s[start:]]; [r] holds
    the bytes of [s[start:stop]] last byte first. *)
Fixpoint TrimSpace_stop `{GoRuntime} (r : list ascii) : string :=
  match r with
  | [] => EmptyString
  | c :: r' =>
    if negb (is_ascii_byte c) then TrimRightFuncIsSpace (unrev_bytes r EmptyString)
    else if asciiSpace c then TrimSpace_stop r'
    else unrev_bytes r EmptyString
  end.

(** The first loop of [TrimSpace], from the start. *)
Fixpoint TrimSpace `{GoRuntime} (s : string) : string :=
  match s with
  | EmptyString => EmptyString
  | String c t =>
    if negb (is_ascii_byte c) then TrimFuncIsSpace s
    else if asciiSpace c then TrimSpace t
    else TrimSpace_stop (rev_bytes s [])
  end.

Fixpoint trimLeftByte (s : string) (c : ascii) : string :=
  match s with
  | EmptyString => EmptyString
  | String x t => if Ascii.eqb x c then trimLeftByte t c else s
  end.

Fixpoint trimRightByte_rev (r : list ascii) (c : ascii) : list ascii :=
  match r with
  | [] => []
  | x :: r' => if Ascii.eqb x c then trimRightByte_rev r' c else r
  end.

Definition trimRightByte (s : string) (c : ascii) : string :=
  unrev_bytes (trimRightByte_rev (rev_bytes s []) c) EmptyString.

(** [strings.Trim(s, cutset)] for a cutset of one ASCII byte *)
Definition Trim (s : string) (c : ascii) : string :=
  trimLeftByte (trimRightByte s c) c.

(** [strings.Split(s, sep)] for a separator of one byte *)
Fixpoint Split (s : string) (sep : ascii) : list string :=
  match s with
  | EmptyString => [EmptyString]
  | String c t =>
    if Ascii.eqb c sep then EmptyString :: Split t sep
    else match Split t sep with
         | [] => [String c EmptyString]
         | f :: fs => String c f :: fs
         end
  end.

Fixpoint HasPrefix (s prefix : string) : bool :=
  match prefix, s with
  | EmptyString, _ => true
  | String _ _, EmptyString => false
  | String p prefix', String c s' => Ascii.eqb c p && HasPrefix s' prefix'
  end.

(** [strings.Contains(s, substr)]: [substr] occurs at some index of [s] *)
Fixpoint Contains (s substr : string) : bool :=
  HasPrefix s substr ||
  match s with
  | EmptyString => false
  | String _ s' => Contains s' substr
  end.

(** The comparison [a < b] of two Go strings: bytewise, a proper prefix
    first. *)
Fixpoint string_lt (a b : string) : bool :=
  match a, b with
  | _, EmptyString => false
  | EmptyString, String _ _ => true
  | String x a', String y b' =>
    if (byte_val x <? byte_val y)%N then true
    else if (byte_val x =? byte_val y)%N then string_lt a' b'
    else false
  end.

(** ** package strconv and package fmt *)

(** the value of a decimal digit, ['0' <= c && c <= '9'] *)
Definition digit_val (c : ascii) : option Z :=
  if ((48 <=? byte_val c) && (byte_val c <=? 57))%N
  then Some (Z.of_N (byte_val c) - 48) else None.

Inductive NumError : Set := ErrSyntax | ErrRange.

Definition maxUint64 : Z := 2 ^ 64 - 1.

(** The digit loop of [strconv.ParseUint(s, 10, 64)]: it stops at the first
    byte that is no digit or that overflows. *)
Fixpoint ParseUint_loop (s : string) (n : Z) : Z * option NumError :=
  match s with
  | EmptyString => (n, None)
  | String c t =>
    match digit_val c with
    | None => (0, Some ErrSyntax)
    | Some d =>
      if n >=? maxUint64 / 10 + 1 then (maxUint64, Some ErrRange)
      else if n * 10 + d >? maxUint64 then (maxUint64, Some ErrRange)
      else ParseUint_loop t (n * 10 + d)
    end
  end.

Definition ParseUint (s : string) : Z * option NumError :=
  match s with
  | EmptyString => (0, Some ErrSyntax)
  | _ => ParseUint_loop s 0
  end.

(** [strconv.ParseInt(s, 10, 0)] with a 64-bit [int] *)
Definition ParseInt (s : string) : Z * option NumError :=
  match s with
  | EmptyString => (0, Some ErrSyntax)
  | String c t =>
    let neg := Ascii.eqb c "-" in
    let s' := if Ascii.eqb c "+" || neg then t else s in
    match ParseUint s' with
    | (_, Some ErrSyntax) => (0, Some ErrSyntax)
    | (un, _) =>
      if negb neg && (un >=? 2 ^ 63) then (2 ^ 63 - 1, Some ErrRange)
      else if neg && (un >? 2 ^ 63) then (- 2 ^ 63, Some ErrRange)
      else (if neg then - un else un, None)
    end
  end.

(** [strconv.Atoi]; its fast path for short inputs computes the same value
    as [ParseInt]. *)
Definition Atoi (s : string) : Z * option NumError := ParseInt s.

(** The verb [%d] of [fmt.Sprintf] on an [int]. *)
Definition Sprintf_d (n : Z) : string := NilZero.string_of_int (Z.to_int n).

(** ** The records of main.go *)

Module Street.
Record StreetRecord : Type := {
  WOJ : Z;
  POW : Z;
  GMI : Z;
  RODZGMI : Z;
  SYM : Z;
  SYMUL : Z;
  CECHA : string;
  NAZWA1 : string;
  NAZWA2 : string;
  FullName : string;
}.
End Street.

Module City.
Record CityRecord : Type := {
  WOJ : Z;
  POW : Z;
  GMI : Z;
  RODZGMI : Z;
  RM : Z;
  MZ : Z;
  NAZWA : string;
  SYM : Z;
  SYMPOD : Z;
}.
End City.

Abbreviation StreetRecord := Street.StreetRecord.
Abbreviation CityRecord := City.CityRecord.

Record AutocompleteService : Type := {
  streets : list StreetRecord;
  cities : list CityRecord;
}.

Definition NewAutocompleteService : AutocompleteService :=
  {| streets := []; cities := [] |}.

(** ** loaders.go *)

(** [readLine] on a reader positioned before the bytes [r], with [line] the
    bytes written to the builder so far: the line and the reader after it,
    or [None] for the error of [ReadByte] at the end of the input. *)
Fixpoint readLine_loop (r : string) (line : string) : option (string * string) :=
  match r with
  | EmptyString =>
    if (0 <? Z.of_nat (String.length line)) then Some (line, EmptyString) else None
  | String b r' =>
    if Ascii.eqb b "010" then Some (line, r')
    else if negb (Ascii.eqb b "013") then readLine_loop r' (line +:+ String b EmptyString)
    else readLine_loop r' line
  end.

Definition readLine (r : string) : option (string * string) :=
  readLine_loop r EmptyString.

(** [fields[i]] where the length of [fields] has been checked *)
Definition field (fields : list string) (i : nat) : string :=
  default EmptyString (fields !! i).

(** the byte of the double quote *)
Definition quote : ascii := "034".

(** [strings.Trim(strings.TrimSpace(f), cutset)] with the double quote as
    cutset *)
Definition clean `{GoRuntime} (f : string) : string :=
  Trim (TrimSpace f) quote.

(** The record built from the cleaned fields of a street line. *)
Definition street_of_fields (fields : list string) : StreetRecord :=
  let CECHA := field fields 6 in
  let NAZWA1 := field fields 7 in
  let NAZWA2 := field fields 8 in
  {| Street.WOJ := fst (Atoi (field fields 0));
     Street.POW := fst (Atoi (field fields 1));
     Street.GMI := fst (Atoi (field fields 2));
     Street.RODZGMI := fst (Atoi (field fields 3));
     Street.SYM := fst (Atoi (field fields 4));
     Street.SYMUL := fst (Atoi (field fields 5));
     Street.CECHA := CECHA;
     Street.NAZWA1 := NAZWA1;
     Street.NAZWA2 := NAZWA2;
     Street.FullName :=
       if negb (String.eqb NAZWA2 EmptyString)
       then CECHA +:+ " " +:+ NAZWA1 +:+ " " +:+ NAZWA2
       else CECHA +:+ " " +:+ NAZWA1 |}.

Definition city_of_fields (fields : list string) : CityRecord :=
  {| City.WOJ := fst (Atoi (field fields 0));
     City.POW := fst (Atoi (field fields 1));
     City.GMI := fst (Atoi (field fields 2));
     City.RODZGMI := fst (Atoi (field fields 3));
     City.RM := fst (Atoi (field fields 4));
     City.MZ := fst (Atoi (field fields 5));
     City.NAZWA := field fields 6;
     City.SYM := fst (Atoi (field fields 7));
     City.SYMPOD := fst (Atoi (field fields 8)) |}.

(** The loop of [LoadCSV]: one iteration per call of [readLine], until it
    reports the end of the input.  [lineNum] and [skipped] only feed the log
    line and are left out.  [fuel] bounds the iterations; [LoadCSV] gives as
    much as the input has bytes, plus one. *)
Fixpoint LoadCSV_loop `{GoRuntime} (fuel : nat) (scanner : string)
    (streets : list StreetRecord) : list StreetRecord :=
  match fuel with
  | O => streets
  | S fuel' =>
    match readLine scanner with
    | None => streets
    | Some (line, scanner') =>
      let fields := Split line ";" in
      if negb (Z.of_nat (length fields) =? 10) then
        LoadCSV_loop fuel' scanner' streets
      else
        let fields := map clean fields in
        if String.eqb (field fields 7) EmptyString then
          LoadCSV_loop fuel' scanner' streets
        else
          LoadCSV_loop fuel' scanner' (streets ++ [street_of_fields fields])
    end
  end.

(** The reader after the header line has been read and dropped. *)
Definition skip_header (scanner : string) : string :=
  match readLine scanner with
  | None => scanner
  | Some (_, scanner') => scanner'
  end.

Inductive error : Set :=
  | failed_to_open_file
  | failed_to_read_file.

(** [LoadCSV]; [file] is the content of the file named [filename], [None]
    when it cannot be opened or read. *)
Definition LoadCSV `{GoRuntime} (s : AutocompleteService) (file : option string)
    : AutocompleteService * option error :=
  match file with
  | None => (s, Some failed_to_open_file)
  | Some data =>
    let scanner := skip_header data in
    ({| streets := LoadCSV_loop (S (String.length data)) scanner [];
        cities := cities s |}, None)
  end.

Fixpoint LoadCitiesCSV_loop `{GoRuntime} (fuel : nat) (scanner : string)
    (cities : list CityRecord) : list CityRecord :=
  match fuel with
  | O => cities
  | S fuel' =>
    match readLine scanner with
    | None => cities
    | Some (line, scanner') =>
      let fields := Split line ";" in
      if negb (Z.of_nat (length fields) =? 10) then
        LoadCitiesCSV_loop fuel' scanner' cities
      else
        let fields := map clean fields in
        if String.eqb (field fields 6) EmptyString then
          LoadCitiesCSV_loop fuel' scanner' cities
        else
          LoadCitiesCSV_loop fuel' scanner' (cities ++ [city_of_fields fields])
    end
  end.

Definition LoadCitiesCSV `{GoRuntime} (s : AutocompleteService) (file : option string)
    : AutocompleteService * option error :=
  match file with
  | None => (s, Some failed_to_read_file)
  | Some data =>
    let scanner := skip_header data in
    ({| streets := streets s;
        cities := LoadCitiesCSV_loop (S (String.length data)) scanner [] |}, None)
  end.

(** ** main.go: the three queries *)

(** [seen[key]] on a [map[string]bool]: a missing key reads as [false] *)
Definition seen_at (seen : gmap string bool) (key : string) : bool :=
  default false (seen !! key).

(** The condition under which the street loop keeps a record. *)
Definition street_matches `{GoRuntime} (query : string) (street : StreetRecord) : bool :=
  let nazwa1Lower := ToLower (Street.NAZWA1 street) in
  HasPrefix nazwa1Lower query || Contains nazwa1Lower query.

(** The loop of [SearchStreets] over the stored records [l], entered with
    the slice [results] and the map [seen]. *)
Fixpoint SearchStreets_loop `{GoRuntime} (query : string) (limit : Z)
    (l : list StreetRecord) (results : list StreetRecord)
    (seen : gmap string bool) : list StreetRecord :=
  match l with
  | [] => results
  | street :: l' =>
    if Z.of_nat (length results) >=? limit then results
    else if street_matches query street then
      if negb (seen_at seen (Street.FullName street)) then
        SearchStreets_loop query limit l' (results ++ [street])
          (<[Street.FullName street := true]> seen)
      else SearchStreets_loop query limit l' results seen
    else SearchStreets_loop query limit l' results seen
  end.

(** The [less] function given to [sort.Slice] by [SearchStreets]. *)
Definition street_less `{GoRuntime} (query : string) (ri rj : StreetRecord) : bool :=
  let nazwa1i := ToLower (Street.NAZWA1 ri) in
  let nazwa1j := ToLower (Street.NAZWA1 rj) in
  let prefixI := HasPrefix nazwa1i query in
  let prefixJ := HasPrefix nazwa1j query in
  if prefixI && negb prefixJ then true
  else if negb prefixI && prefixJ then false
  else string_lt (Street.NAZWA1 ri) (Street.NAZWA1 rj).

Definition SearchStreets `{GoRuntime} (s : AutocompleteService) (query : string)
    (limit : Z) : outcome (list StreetRecord) :=
  if String.eqb query EmptyString then Returns []
  else
    let query := ToLower (TrimSpace query) in
    if negb (makeslice sizeof_StreetRecord limit) then Panics
    else
      let results := SearchStreets_loop query limit (streets s) [] ∅ in
      Returns (sort_Slice (street_less query) results).

(** [Search], the street search of the single-file variant of the program,
    has the body of [SearchStreets] word for word. *)
Definition Search `{GoRuntime} (s : AutocompleteService) (query : string)
    (limit : Z) : outcome (list StreetRecord) :=
  SearchStreets s query limit.

(** The three [continue] tests of the city loop: the record is skipped when
    one of them holds. *)
Definition city_filtered_out (woj pow gmi : Z) (city : CityRecord) : bool :=
  (woj >? 0) && negb (City.WOJ city =? woj)
  || (pow >? 0) && negb (City.POW city =? pow)
  || (gmi >? 0) && negb (City.GMI city =? gmi).

Definition city_matches `{GoRuntime} (query : string) (city : CityRecord) : bool :=
  let nazwaLower := ToLower (City.NAZWA city) in
  String.eqb query EmptyString || HasPrefix nazwaLower query || Contains nazwaLower query.

(** [fmt.Sprintf] with the format of name, dash and three numbers *)
Definition city_key (city : CityRecord) : string :=
  City.NAZWA city +:+ "-" +:+ Sprintf_d (City.WOJ city) +:+ "-"
    +:+ Sprintf_d (City.POW city) +:+ "-" +:+ Sprintf_d (City.GMI city).

Fixpoint SearchCities_loop `{GoRuntime} (query : string) (woj pow gmi : Z)
    (limit : Z) (l : list CityRecord) (results : list CityRecord)
    (seen : gmap string bool) : list CityRecord :=
  match l with
  | [] => results
  | city :: l' =>
    if Z.of_nat (length results) >=? limit then results
    else if city_filtered_out woj pow gmi city then
      SearchCities_loop query woj pow gmi limit l' results seen
    else if city_matches query city then
      let key := city_key city in
      if negb (seen_at seen key) then
        SearchCities_loop query woj pow gmi limit l' (results ++ [city])
          (<[key := true]> seen)
      else SearchCities_loop query woj pow gmi limit l' results seen
    else SearchCities_loop query woj pow gmi limit l' results seen
  end.

Definition city_less `{GoRuntime} (query : string) (ri rj : CityRecord) : bool :=
  if String.eqb query EmptyString then string_lt (City.NAZWA ri) (City.NAZWA rj)
  else
    let nazwaI := ToLower (City.NAZWA ri) in
    let nazwaJ := ToLower (City.NAZWA rj) in
    let prefixI := HasPrefix nazwaI query in
    let prefixJ := HasPrefix nazwaJ query in
    if prefixI && negb prefixJ then true
    else if negb prefixI && prefixJ then false
    else string_lt (City.NAZWA ri) (City.NAZWA rj).

Definition SearchCities `{GoRuntime} (s : AutocompleteService) (query : string)
    (woj pow gmi : Z) (limit : Z) : outcome (list CityRecord) :=
  let query := ToLower (TrimSpace query) in
  if negb (makeslice sizeof_CityRecord limit) then Panics
  else
    let results := SearchCities_loop query woj pow gmi limit (cities s) [] ∅ in
    Returns (sort_Slice (city_less query) results).

(** An entry of the result of [GetGMIForStreet]: the values stored under
    the keys woj, pow and gmi of the map, in this order.  The maps are built
    with these three [int] entries only, so the type assertions of the
    sorting function cannot fail. *)
Definition gmi_entry : Type := Z * Z * Z.

Definition street_entry (street : StreetRecord) : gmi_entry :=
  (Street.WOJ street, Street.POW street, Street.GMI street).

Definition gmi_key (e : gmi_entry) : string :=
  let '(woj, pow, gmi) := e in
  Sprintf_d woj +:+ "-" +:+ Sprintf_d pow +:+ "-" +:+ Sprintf_d gmi.

Fixpoint GetGMIForStreet_loop `{GoRuntime} (streetNameLower : string)
    (l : list StreetRecord) (results : list gmi_entry)
    (seen : gmap string bool) : list gmi_entry :=
  match l with
  | [] => results
  | street :: l' =>
    let nazwa1Lower := ToLower (Street.NAZWA1 street) in
    if String.eqb nazwa1Lower streetNameLower then
      let key := gmi_key (street_entry street) in
      if negb (seen_at seen key) then
        GetGMIForStreet_loop streetNameLower l' (results ++ [street_entry street])
          (<[key := true]> seen)
      else GetGMIForStreet_loop streetNameLower l' results seen
    else GetGMIForStreet_loop streetNameLower l' results seen
  end.

Definition gmi_less (ri rj : gmi_entry) : bool :=
  let '(woj_i, pow_i, gmi_i) := ri in
  let '(woj_j, pow_j, gmi_j) := rj in
  if negb (woj_i =? woj_j) then woj_i <? woj_j
  else if negb (pow_i =? pow_j) then pow_i <? pow_j
  else gmi_i <? gmi_j.

Definition GetGMIForStreet `{GoRuntime} (s : AutocompleteService)
    (streetName : string) : list gmi_entry :=
  let streetName := TrimSpace streetName in
  if String.eqb streetName EmptyString then []
  else
    let streetNameLower := ToLower streetName in
    let results := GetGMIForStreet_loop streetNameLower (streets s) [] ∅ in
    sort_Slice gmi_less results.

(** ** Reference descriptions of the scans and of the input

    The definitions below are not translations of the code: they say in one
    expression what a loop computes, and the theorems compare the loops with
    them. *)

(** The elements of [l] whose key is neither in [seen] nor the key of an
    earlier element of [l]: the first record of every key, in the order of
    [l]. *)
Fixpoint dedup_by {A} (key : A → string) (seen : gset string) (l : list A) : list A :=
  match l with
  | [] => []
  | x :: l' =>
    if decide (key x ∈ seen) then dedup_by key seen l'
    else x :: dedup_by key ({[key x]} ∪ seen) l'
  end.

(** A scan that takes the first matches of distinct key until it holds
    [limit] of them. *)
Definition first_distinct {A} (key : A → string) (matches : A → bool)
    (limit : Z) (l : list A) : list A :=
  take (Z.to_nat limit) (dedup_by key ∅ (filter (λ x, matches x = true) l)).

(** The reading of a scan that counts every match towards the limit, the
    dropped duplicates too: the first [limit] matches are looked at, and the
    first record of every key among them is kept. *)
Definition first_counting_duplicates {A} (key : A → string) (matches : A → bool)
    (limit : Z) (l : list A) : list A :=
  dedup_by key ∅ (take (Z.to_nat limit) (filter (λ x, matches x = true) l)).

(** The administrative filters in the words of the specification: a zero
    asks nothing, another value asks for equality, and all three hold. *)
Definition filters_hold (woj pow gmi : Z) (city : CityRecord) : Prop :=
  (woj = 0 ∨ City.WOJ city = woj) ∧
  (pow = 0 ∨ City.POW city = pow) ∧
  (gmi = 0 ∨ City.GMI city = gmi).

#[global] Instance filters_hold_dec woj pow gmi city :
  Decision (filters_hold woj pow gmi city).
Proof. unfold filters_hold. apply _. Defined.

(** The bytes of [s] without the carriage returns. *)
Fixpoint without_cr (s : string) : string :=
  match s with
  | EmptyString => EmptyString
  | String b t => if Ascii.eqb b "013" then without_cr t else String b (without_cr t)
  end.

(** [ls] without its last element when that element is empty. *)
Fixpoint drop_empty_last (ls : list string) : list string :=
  match ls with
  | [] => []
  | [l] => if String.eqb l EmptyString then [] else [l]
  | l :: ls' => l :: drop_empty_last ls'
  end.

(** The pieces of the input between the newline bytes, without carriage
    returns. *)
Definition pieces (r : string) : list string := map without_cr (Split r "010").

(** The lines of a file: its pieces; what follows the last newline is a
    line when something is left of it. *)
Definition input_lines (data : string) : list string :=
  drop_empty_last (pieces data).

(** The lines after the header. *)
Definition data_lines (data : string) : list string := tail (input_lines data).

(** The cleaned fields of a line. *)
Definition line_fields `{GoRuntime} (line : string) : list string :=
  map clean (Split line ";").

(** A line is kept when it has ten fields and its name field, at index
    [name], is not empty after cleaning. *)
Definition line_ok `{GoRuntime} (name : nat) (line : string) : bool :=
  (Z.of_nat (length (Split line ";")) =? 10)
  && negb (String.eqb (field (line_fields line) name) EmptyString).

(** The records of the lines that are kept. *)
Definition street_of_line `{GoRuntime} (line : string) : StreetRecord :=
  street_of_fields (line_fields line).

Definition city_of_line `{GoRuntime} (line : string) : CityRecord :=
  city_of_fields (line_fields line).

(** The name, woj, pow and gmi of a city. *)
Definition city_tuple (city : CityRecord) : string * Z * Z * Z :=
  (City.NAZWA city, City.WOJ city, City.POW city, City.GMI city).

(** what the city loop keeps: a record that is not filtered out and matches *)
Definition city_kept `{GoRuntime} (query : string) (woj pow gmi : Z) (city : CityRecord) : bool :=
  negb (city_filtered_out woj pow gmi city) && city_matches query city.

(** The test of [GetGMIForStreet] on a stored record. *)
Definition name_is `{GoRuntime} (streetNameLower : string) (street : StreetRecord) : bool :=
  String.eqb (ToLower (Street.NAZWA1 street)) streetNameLower.

(** A string without the dash byte. *)
Definition dashless (s : string) : Prop :=
  all_bytes (λ c, negb (Ascii.eqb c "-")) s = true.

(** The three loops have one shape: a scan that keeps the records
    passing a test, whose key has not been seen, until an optional limit is
    reached. *)
Definition limit_reached (limit : option Z) (len : nat) : bool :=
  match limit with
  | Some n => Z.of_nat len >=? n
  | None => false
  end.

Fixpoint scan_loop {A} (key : A → string) (keep : A → bool) (limit : option Z)
    (l results : list A) (seen : gmap string bool) : list A :=
  match l with
  | [] => results
  | x :: l' =>
    if limit_reached limit (length results) then results
    else if keep x then
      if negb (seen_at seen (key x)) then
        scan_loop key keep limit l' (results ++ [x]) (<[key x := true]> seen)
      else scan_loop key keep limit l' results seen
    else scan_loop key keep limit l' results seen
  end.

Definition take_limit {A} (limit : option Z) (len : nat) (l : list A) : list A :=
  match limit with
  | Some n => take (Z.to_nat n - len) l
  | None => l
  end.

(** The keys that read as [true] in [seen] are those of [keys]. *)
Definition seen_keys (seen : gmap string bool) (keys : gset string) : Prop :=
  ∀ k, seen_at seen k = true ↔ k ∈ keys.

(** The number of bytes [c] in [s]. *)
Fixpoint count_byte (c : ascii) (s : string) : nat :=
  match s with
  | EmptyString => 0%nat
  | String b t => ((if Ascii.eqb b c then 1 else 0) + count_byte c t)%nat
  end.

(** The values of a Go [int] on a 64-bit platform. *)
Definition is_int (n : Z) : Prop := - 2 ^ 63 ≤ n ≤ 2 ^ 63 - 1.

(** The last byte of a string. *)
Fixpoint last_byte (s : string) : option ascii :=
  match s with
  | EmptyString => None
  | String x EmptyString => Some x
  | String _ t => last_byte t
  end.

(** ** The start of the program *)



(** ** The handlers

    A handler is modelled by what it reads of the request (the values of the
    URL query and the header HX-Request), the time it measures, and what it
    hands to the response: the headers it sets and the value it gives to the
    JSON encoder, or the values it prints into the HTML fragment, whose
    markup around them is constant text.  The service is the global
    [service] of the program. *)

(** [url.Values.Get]: the first value of the key, or the empty string. *)
Definition Get (v : gmap string (list string)) (key : string) : string :=
  match v !! key with
  | Some (x :: _) => x
  | _ => EmptyString
  end.

Record Request : Type := {
  URL_Query : gmap string (list string);
  HX_Request : string;
}.

Record written (B : Type) : Type := {
  header : gmap string string;
  body : B;
}.
Arguments header {B} _.
Arguments body {B} _.

Module StreetAPI.
Record AutocompleteResponse : Type := {
  Query : string;
  Results : list StreetRecord;
  Count : Z;
  Time : string;
}.
End StreetAPI.

Module CityAPI.
Record CityAutocompleteResponse : Type := {
  Query : string;
  Filters : gmap string Z;
  Results : list CityRecord;
  Count : Z;
  Time : string;
}.
End CityAPI.

(** A value stored in a [map[string]interface{}] of the handlers. *)
Inductive any : Type :=
  | any_string (s : string)
  | any_int (n : Z)
  | any_entries (l : list gmi_entry).

(** The headers of a JSON answer. *)
Definition json_header : gmap string string :=
  <["Content-Type" := "application/json"]>
    (<["Access-Control-Allow-Origin" := "*"]> ∅).

(** The map [filters] of [citiesHandler]. *)
Definition filters_map (woj pow gmi : Z) : gmap string Z :=
  let filters := ∅ in
  let filters := if woj >? 0 then <["woj" := woj]> filters else filters in
  let filters := if pow >? 0 then <["pow" := pow]> filters else filters in
  let filters := if gmi >? 0 then <["gmi" := gmi]> filters else filters in
  filters.

(** The handlers that answer in JSON only. *)
Module Api.

Definition streetsHandler `{GoRuntime} (service : AutocompleteService)
    (r : Request) (elapsed : string)
    : outcome (written StreetAPI.AutocompleteResponse) :=
  let query := Get (URL_Query r) "q" in
  if String.eqb query EmptyString then
    Returns {| header := json_header;
               body := {| StreetAPI.Query := EmptyString;
                          StreetAPI.Results := [];
                          StreetAPI.Count := 0;
                          StreetAPI.Time := elapsed |} |}
  else
    let limit := 10 in
    match SearchStreets service query limit with
    | Panics => Panics
    | Returns results =>
      Returns {| header := json_header;
                 body := {| StreetAPI.Query := query;
                            StreetAPI.Results := results;
                            StreetAPI.Count := Z.of_nat (length results);
                            StreetAPI.Time := elapsed |} |}
    end.

Definition citiesHandler `{GoRuntime} (service : AutocompleteService)
    (r : Request) (elapsed : string)
    : outcome (written CityAPI.CityAutocompleteResponse) :=
  let query := Get (URL_Query r) "q" in
  let woj := (Atoi (Get (URL_Query r) "woj")).1 in
  let pow := (Atoi (Get (URL_Query r) "pow")).1 in
  let gmi := (Atoi (Get (URL_Query r) "gmi")).1 in
  let limit := 10 in
  match SearchCities service query woj pow gmi limit with
  | Panics => Panics
  | Returns results =>
    Returns {| header := json_header;
               body := {| CityAPI.Query := query;
                          CityAPI.Filters := filters_map woj pow gmi;
                          CityAPI.Results := results;
                          CityAPI.Count := Z.of_nat (length results);
                          CityAPI.Time := elapsed |} |}
  end.

Definition streetGMIHandler `{GoRuntime} (service : AutocompleteService)
    (r : Request) (elapsed : string) : written (gmap string any) :=
  let streetName := Get (URL_Query r) "name" in
  if String.eqb streetName EmptyString then
    {| header := json_header;
       body := <["time" := any_string elapsed]>
                 (<["count" := any_int 0]>
                    (<["results" := any_entries []]>
                       (<["error" := any_string "missing 'name' parameter"]> ∅))) |}
  else
    let results := GetGMIForStreet service streetName in
    {| header := json_header;
       body := <["time" := any_string elapsed]>
                 (<["count" := any_int (Z.of_nat (length results))]>
                    (<["results" := any_entries results]>
                       (<["street_name" := any_string streetName]> ∅))) |}.

End Api.

(** What the handlers of the second variant print for an HTMX request. *)
Inductive fragment : Type :=
  | empty_state
  | no_results
  | results_list (count : Z) (elapsed : string) (names : list string).

Inductive reply (B : Type) : Type :=
  | html (f : fragment)
  | json (b : B).
Arguments html {B} f.
Arguments json {B} b.

Definition html_header : gmap string string :=
  <["Content-Type" := "text/html"]>
    (<["Access-Control-Allow-Origin" := "*"]> ∅).

(** The loop of [citiesHandler] that keeps the first result of every
    name. *)
Fixpoint uniqueResults_loop (results uniqueResults : list CityRecord)
    (seen : gmap string bool) : list CityRecord :=
  match results with
  | [] => uniqueResults
  | result :: results' =>
    if negb (seen_at seen (City.NAZWA result)) then
      uniqueResults_loop results' (uniqueResults ++ [result])
        (<[City.NAZWA result := true]> seen)
    else uniqueResults_loop results' uniqueResults seen
  end.

(** The handlers that answer an HTMX request with an HTML fragment. *)
Module Htmx.

Definition streetsHandler `{GoRuntime} (service : AutocompleteService)
    (r : Request) (elapsed : string)
    : outcome (written (reply StreetAPI.AutocompleteResponse)) :=
  let query := Get (URL_Query r) "q" in
  let limit := 10 in
  match SearchStreets service query limit with
  | Panics => Panics
  | Returns results =>
    let isHTMX := String.eqb (HX_Request r) "true" in
    if isHTMX then
      if String.eqb query EmptyString || (Z.of_nat (length results) =? 0) then
        if String.eqb query EmptyString then
          Returns {| header := html_header; body := html empty_state |}
        else Returns {| header := html_header; body := html no_results |}
      else
        Returns {| header := html_header;
                   body := html (results_list (Z.of_nat (length results)) elapsed
                                   (map Street.FullName results)) |}
    else if String.eqb query EmptyString then
      Returns {| header := json_header;
                 body := json {| StreetAPI.Query := EmptyString;
                                 StreetAPI.Results := [];
                                 StreetAPI.Count := 0;
                                 StreetAPI.Time := elapsed |} |}
    else
      Returns {| header := json_header;
                 body := json {| StreetAPI.Query := query;
                                 StreetAPI.Results := results;
                                 StreetAPI.Count := Z.of_nat (length results);
                                 StreetAPI.Time := elapsed |} |}
  end.

Definition citiesHandler `{GoRuntime} (service : AutocompleteService)
    (r : Request) (elapsed : string)
    : outcome (written (reply CityAPI.CityAutocompleteResponse)) :=
  let query := Get (URL_Query r) "q" in
  let woj := (Atoi (Get (URL_Query r) "woj")).1 in
  let pow := (Atoi (Get (URL_Query r) "pow")).1 in
  let gmi := (Atoi (Get (URL_Query r) "gmi")).1 in
  let limit := 10 in
  match SearchCities service query woj pow gmi limit with
  | Panics => Panics
  | Returns results =>
    let isHTMX := String.eqb (HX_Request r) "true" in
    if isHTMX then
      if String.eqb query EmptyString || (Z.of_nat (length results) =? 0) then
        if String.eqb query EmptyString then
          Returns {| header := html_header; body := html empty_state |}
        else Returns {| header := html_header; body := html no_results |}
      else
        let uniqueResults := uniqueResults_loop results [] ∅ in
        Returns {| header := html_header;
                   body := html (results_list (Z.of_nat (length uniqueResults)) elapsed
                                   (map City.NAZWA uniqueResults)) |}
    else
      Returns {| header := json_header;
                 body := json {| CityAPI.Query := query;
                                 CityAPI.Filters := filters_map woj pow gmi;
                                 CityAPI.Results := results;
                                 CityAPI.Count := Z.of_nat (length results);
                                 CityAPI.Time := elapsed |} |}
  end.

End Htmx.

(** ** A runtime to compute with

    Insertion, as [sort.Slice] does it on short slices; the strings outside
    ASCII are left as they are. *)
Fixpoint insert_sorted {A} (less : A → A → bool) (x : A) (l : list A) : list A :=
  match l with
  | [] => [x]
  | y :: l' => if less x y then x :: l else y :: insert_sorted less x l'
  end.

Definition insertion_sort {A} (less : A → A → bool) (l : list A) : list A :=
  fold_left (λ acc x, insert_sorted less x acc) l [].

(** * Properties *)

(** ** Strings *)

Lemma byte_val_inj x y : byte_val x = byte_val y → x = y.
Proof.
  unfold byte_val. intros E.
  rewrite <- (ascii_N_embedding x), <- (ascii_N_embedding y). by rewrite E.
Qed.

Lemma string_lt_irrefl a : string_lt a a = false.
Proof.
  induction a as [|x a IH]; simpl; [done|].
  by rewrite N.ltb_irrefl, N.eqb_refl.
Qed.

Lemma string_lt_trans a b c :
  string_lt a b = true → string_lt b c = true → string_lt a c = true.
Proof.
  revert b c. induction a as [|x a IH]; intros [|y b] [|z c]; simpl; try done.
  destruct (N.ltb_spec (byte_val x) (byte_val y)),
           (N.ltb_spec (byte_val y) (byte_val z)),
           (N.ltb_spec (byte_val x) (byte_val z)),
           (N.eqb_spec (byte_val x) (byte_val y)),
           (N.eqb_spec (byte_val y) (byte_val z)),
           (N.eqb_spec (byte_val x) (byte_val z));
    try done; try lia.
  apply IH.
Qed.

Lemma string_lt_total a b :
  string_lt a b = false → string_lt b a = false → a = b.
Proof.
  revert b. induction a as [|x a IH]; intros [|y b]; simpl; try done.
  destruct (N.ltb_spec (byte_val x) (byte_val y)),
           (N.ltb_spec (byte_val y) (byte_val x)),
           (N.eqb_spec (byte_val x) (byte_val y)),
           (N.eqb_spec (byte_val y) (byte_val x));
    try done; try lia.
  intros Hab Hba. f_equal; [by apply byte_val_inj | by apply IH].
Qed.

Lemma string_lt_asym a b : string_lt a b = true → string_lt b a = false.
Proof.
  intros Hab. destruct (string_lt b a) eqn:Hba; [|done].
  by rewrite <- (string_lt_irrefl a), <- (string_lt_trans _ _ _ Hab Hba).
Qed.

Lemma string_lt_negtrans a b c :
  string_lt a b = false → string_lt b c = false → string_lt a c = false.
Proof.
  intros Hab Hbc. destruct (string_lt a c) eqn:Hac; [|done].
  destruct (string_lt b a) eqn:Hba.
  - by rewrite (string_lt_trans _ _ _ Hba Hac) in Hbc.
  - rewrite (string_lt_total _ _ Hab Hba) in Hac. congruence.
Qed.

Lemma HasPrefix_empty s : HasPrefix s EmptyString = true.
Proof. by destruct s. Qed.

Lemma Contains_empty s : Contains s EmptyString = true.
Proof. destruct s; simpl; done. Qed.

Lemma HasPrefix_Contains s p : HasPrefix s p = true → Contains s p = true.
Proof. intros Hp. destruct s; simpl in *; by rewrite Hp. Qed.

Section runtime.
Context `{GoRuntime}.

Lemma ToLower_empty : ToLower EmptyString = EmptyString.
Proof. reflexivity. Qed.

Lemma TrimSpace_empty : TrimSpace EmptyString = EmptyString.
Proof. reflexivity. Qed.


(** A query of ASCII white space is trimmed to the empty string. *)
Lemma TrimSpace_asciiSpace s :
  all_bytes asciiSpace s = true → TrimSpace s = EmptyString.
Proof.
  induction s as [|c s IH]; simpl; [done|].
  intros [Hc Hs]%andb_prop. rewrite Hc.
  assert (is_ascii_byte c = true) as ->.
  { unfold asciiSpace, is_ascii_byte in *.
    apply N.ltb_lt. apply orb_prop in Hc as [[_ ?%N.leb_le]%andb_prop | ?%N.eqb_eq]; lia. }
  simpl. by apply IH.
Qed.

(** ** The orderings given to sort.Slice *)

Lemma prefix_name_ordering {A} (p : A → bool) (n : A → string) :
  less_ordering (λ a b,
    if p a && negb (p b) then true
    else if negb (p a) && p b then false
    else string_lt (n a) (n b)).
Proof.
  repeat split.
  - intros x. destruct (p x); simpl; apply string_lt_irrefl.
  - intros x y z. destruct (p x), (p y), (p z); simpl; try done;
      apply string_lt_trans.
  - intros x y z. destruct (p x), (p y), (p z); simpl; try done;
      apply string_lt_negtrans.
Qed.

Lemma street_less_ordering query : less_ordering (street_less query).
Proof. apply (prefix_name_ordering (λ r, HasPrefix (ToLower (Street.NAZWA1 r)) query)). Qed.

Lemma city_less_ordering query : less_ordering (city_less query).
Proof.
  unfold city_less. destruct (String.eqb query EmptyString).
  - repeat split; intros *;
      [apply string_lt_irrefl | apply string_lt_trans | apply string_lt_negtrans].
  - apply (prefix_name_ordering (λ r, HasPrefix (ToLower (City.NAZWA r)) query)).
Qed.


End runtime.

(** ** First records of distinct key *)

Lemma dedup_by_elem {A} (key : A → string) seen l x :
  x ∈ dedup_by key seen l → x ∈ l ∧ key x ∉ seen.
Proof.
  revert seen. induction l as [|y l IH]; intros seen; simpl.
  - by intros ?%elem_of_nil.
  - case_decide as Hy.
    + intros [??]%IH. split; [by right | done].
    + intros [->|[??]%IH]%elem_of_cons.
      * split; [by left | done].
      * split; [by right | set_solver].
Qed.

Lemma dedup_by_NoDup {A} (key : A → string) seen l :
  NoDup (key <$> dedup_by key seen l).
Proof.
  revert seen. induction l as [|y l IH]; intros seen; simpl.
  - constructor.
  - case_decide as Hy; [apply IH|].
    rewrite fmap_cons. constructor; [|apply IH].
    intros (z & Hk & [_ Hz]%dedup_by_elem)%list_elem_of_fmap. set_solver.
Qed.

(** A kept record is the first of its key. *)
Lemma dedup_by_first {A} (key : A → string) seen l x :
  x ∈ dedup_by key seen l →
  ∃ l1 l2, l = l1 ++ x :: l2 ∧ ∀ y, y ∈ l1 → key y ≠ key x.
Proof.
  revert seen. induction l as [|y l IH]; intros seen; simpl.
  - by intros ?%elem_of_nil.
  - case_decide as Hy.
    + intros Hx. destruct (IH _ Hx) as (l1 & l2 & -> & Hl1).
      exists (y :: l1), l2. split; [done|].
      intros z [->|?]%elem_of_cons; [|by apply Hl1].
      apply dedup_by_elem in Hx as [_ Hx]. congruence.
    + intros [->|Hx]%elem_of_cons.
      * exists [], l. split; [done|]. by intros ? ?%elem_of_nil.
      * destruct (IH _ Hx) as (l1 & l2 & -> & Hl1).
        exists (y :: l1), l2. split; [done|].
        intros z [->|?]%elem_of_cons; [|by apply Hl1].
        apply dedup_by_elem in Hx as [_ Hx]. set_solver.
Qed.

(** Every key of [l] that has not been seen is the key of a kept record. *)
Lemma dedup_by_complete {A} (key : A → string) seen l x :
  x ∈ l → key x ∉ seen → ∃ y, y ∈ dedup_by key seen l ∧ key y = key x.
Proof.
  revert seen. induction l as [|z l IH]; intros seen; simpl.
  - by intros ?%elem_of_nil.
  - intros [->|Hx]%elem_of_cons Hseen.
    + rewrite decide_False by done. exists z. split; [by left | done].
    + case_decide as Hz; [by apply IH|].
      destruct (decide (key x = key z)) as [E|E].
      * exists z. split; [by left | done].
      * destruct (IH ({[key z]} ∪ seen) Hx) as (y & ? & ?); [set_solver|].
        exists y. split; [by right | done].
Qed.

(** ** The three loops, as one scan *)

Lemma seen_keys_empty : seen_keys ∅ ∅.
Proof. intros k. unfold seen_at. rewrite lookup_empty. simpl. set_solver. Qed.

Lemma seen_keys_insert seen keys k :
  seen_keys seen keys → seen_keys (<[k := true]> seen) ({[k]} ∪ keys).
Proof.
  intros Hs k'. unfold seen_at. rewrite lookup_insert. case_decide as E.
  - subst. simpl. set_solver.
  - specialize (Hs k'). unfold seen_at in Hs. rewrite Hs. set_solver.
Qed.

Lemma scan_loop_spec {A} (key : A → string) keep limit l results seen keys :
  seen_keys seen keys →
  scan_loop key keep limit l results seen =
  results ++ take_limit limit (length results)
               (dedup_by key keys (filter (λ x, keep x = true) l)).
Proof.
  revert results seen keys.
  induction l as [|x l IH]; intros results seen keys Hseen; simpl.
  - destruct limit; simpl; by rewrite ?take_nil, app_nil_r.
  - destruct (limit_reached limit (length results)) eqn:Hlim.
    { destruct limit as [n|]; simpl in *; [|done].
      apply Z.geb_le in Hlim.
      replace (Z.to_nat n - length results)%nat with 0%nat by lia.
      by rewrite take_0, app_nil_r. }
    destruct (keep x) eqn:Hkeep.
    + rewrite filter_cons_True by done. simpl.
      destruct (seen_at seen (key x)) eqn:Hk; simpl.
      * rewrite decide_True by (by apply Hseen). by apply IH.
      * rewrite decide_False by (intros Hin; apply Hseen in Hin; congruence).
        rewrite (IH _ _ ({[key x]} ∪ keys)) by (by apply seen_keys_insert).
        rewrite <- app_assoc. f_equal. simpl.
        destruct limit as [n|]; simpl in *; [|done].
        rewrite length_app. simpl.
        assert (Z.of_nat (length results) < n) by (destruct (Z.geb_spec (Z.of_nat (length results)) n); [done | lia]).
        replace (Z.to_nat n - length results)%nat
          with (S (Z.to_nat n - (length results + 1)))%nat by lia.
        done.
    + rewrite filter_cons_False by congruence. by apply IH.
Qed.

Section queries.
Context `{GoRuntime}.

Lemma SearchStreets_loop_scan query limit l results seen :
  SearchStreets_loop query limit l results seen =
  scan_loop Street.FullName (street_matches query) (Some limit) l results seen.
Proof.
  revert results seen. induction l as [|x l IH]; intros results seen; simpl; [done|].
  by rewrite !IH.
Qed.

Lemma SearchCities_loop_scan query woj pow gmi limit l results seen :
  SearchCities_loop query woj pow gmi limit l results seen =
  scan_loop city_key (city_kept query woj pow gmi) (Some limit) l results seen.
Proof.
  revert results seen. induction l as [|x l IH]; intros results seen; simpl; [done|].
  unfold city_kept. rewrite !IH. by destruct (city_filtered_out woj pow gmi x).
Qed.

Lemma GetGMIForStreet_loop_scan name l results seen :
  GetGMIForStreet_loop name l results seen =
  scan_loop gmi_key (λ _, true) None
    (street_entry <$> filter (λ x, name_is name x = true) l) results seen.
Proof.
  revert results seen. induction l as [|x l IH]; intros results seen; simpl; [done|].
  fold (name_is name x). destruct (name_is name x) eqn:Hx.
  - rewrite filter_cons_True by done. simpl. by rewrite !IH.
  - rewrite filter_cons_False by congruence. by rewrite IH.
Qed.

Lemma SearchStreets_loop_first query limit l :
  SearchStreets_loop query limit l [] ∅ =
  first_distinct Street.FullName (street_matches query) limit l.
Proof.
  rewrite SearchStreets_loop_scan, (scan_loop_spec _ _ _ _ _ _ ∅ seen_keys_empty).
  simpl. unfold first_distinct. by rewrite Nat.sub_0_r.
Qed.

Lemma SearchCities_loop_first query woj pow gmi limit l :
  SearchCities_loop query woj pow gmi limit l [] ∅ =
  first_distinct city_key (city_kept query woj pow gmi) limit l.
Proof.
  rewrite SearchCities_loop_scan, (scan_loop_spec _ _ _ _ _ _ ∅ seen_keys_empty).
  simpl. unfold first_distinct. by rewrite Nat.sub_0_r.
Qed.

Lemma filter_all_true {A} (l : list A) : filter (λ _ : A, true = true) l = l.
Proof.
  induction l as [|x l IH]; [done|]. rewrite filter_cons_True by done. by rewrite IH.
Qed.

Lemma GetGMIForStreet_loop_first name l :
  GetGMIForStreet_loop name l [] ∅ =
  dedup_by gmi_key ∅ (street_entry <$> filter (λ x, name_is name x = true) l).
Proof.
  rewrite GetGMIForStreet_loop_scan, (scan_loop_spec _ _ _ _ _ _ ∅ seen_keys_empty).
  simpl. by rewrite filter_all_true.
Qed.

End queries.

(** ** What a scan result and its sorted form satisfy *)

Lemma filter_split {A} (P : A → Prop) `{∀ x, Decision (P x)} (l f1 f2 : list A) x :
  filter P l = f1 ++ x :: f2 →
  ∃ l1 l2, l = l1 ++ x :: l2 ∧ filter P l1 = f1 ∧ filter P l2 = f2.
Proof.
  revert f1. induction l as [|y l IH]; intros f1.
  - by destruct f1.
  - destruct (decide (P y)) as [Hy|Hy].
    + rewrite filter_cons_True by done. destruct f1 as [|z f1]; simpl.
      * intros [= -> Hf]. exists [], l. by rewrite filter_nil.
      * intros [= -> Hf]. destruct (IH _ Hf) as (l1 & l2 & -> & <- & <-).
        exists (z :: l1), l2. by rewrite filter_cons_True.
    + rewrite filter_cons_False by done. intros Hf.
      destruct (IH _ Hf) as (l1 & l2 & -> & <- & <-).
      exists (y :: l1), l2. by rewrite filter_cons_False.
Qed.

Section first_distinct.
Context {A : Type} (key : A → string) (matches : A → bool).

Lemma first_distinct_length limit l :
  (length (first_distinct key matches limit l) ≤ Z.to_nat limit)%nat.
Proof. unfold first_distinct. rewrite length_take. lia. Qed.

Lemma first_distinct_elem limit l x :
  x ∈ first_distinct key matches limit l → x ∈ l ∧ matches x = true.
Proof.
  unfold first_distinct. intros Hx%subseteq_take.
  apply dedup_by_elem in Hx as [Hx _]. by apply list_elem_of_filter in Hx as [??].
Qed.

Lemma first_distinct_NoDup limit l :
  NoDup (key <$> first_distinct key matches limit l).
Proof.
  unfold first_distinct. rewrite fmap_take.
  eapply sublist_NoDup; [|apply sublist_take]. apply dedup_by_NoDup.
Qed.

(** A collected record is the first match of its key in [l]. *)
Lemma first_distinct_first limit l x :
  x ∈ first_distinct key matches limit l →
  ∃ l1 l2, l = l1 ++ x :: l2 ∧
    ∀ y, y ∈ l1 → matches y = true → key y ≠ key x.
Proof.
  unfold first_distinct. intros Hx%subseteq_take.
  apply dedup_by_first in Hx as (f1 & f2 & Hf & Hf1).
  apply filter_split in Hf as (l1 & l2 & -> & <- & _).
  exists l1, l2. split; [done|]. intros y Hy Hm. apply Hf1.
  by apply list_elem_of_filter.
Qed.

End first_distinct.

Lemma StronglySorted_weaken {A} (R1 R2 : A → A → Prop) (l : list A) :
  (∀ a b, R1 a b → R2 a b) → StronglySorted R1 l → StronglySorted R2 l.
Proof.
  intros HR. induction 1 as [|x l Hl IH Hx]; constructor; [done|].
  eapply Forall_impl; [exact Hx|]. apply HR.
Qed.

Lemma StronglySorted_at {A} (R : A → A → Prop) (l : list A) i j a b :
  StronglySorted R l → l !! i = Some a → l !! j = Some b → (i < j)%nat → R a b.
Proof.
  intros Hl. revert i j. induction Hl as [|x l Hl IH Hx]; intros i j Hi Hj Hij.
  - by rewrite lookup_nil in Hi.
  - destruct j as [|j]; [lia|]. destruct i as [|i]; simpl in *.
    + injection Hi as ->. rewrite Forall_forall in Hx.
      apply Hx. by eapply list_elem_of_lookup_2.
    + apply (IH i j); [done|done|lia].
Qed.

(** In a sorted slice an element that is [less] than another stands before
    it. *)
Lemma sorted_less_before {A} (less : A → A → bool) (r : list A) i j a b :
  (∀ x, less x x = false) →
  StronglySorted (not_after less) r →
  r !! i = Some a → r !! j = Some b → less a b = true → (i < j)%nat.
Proof.
  intros Hirr Hsorted Hi Hj Hab.
  destruct (Nat.lt_trichotomy i j) as [?|[->|Hji]]; [done| |].
  - rewrite Hi in Hj. injection Hj as ->. by rewrite Hirr in Hab.
  - exfalso. revert i j Hi Hj Hji.
    induction Hsorted as [|x r Hr IH Hx]; intros i j Hi Hj Hji.
    + by rewrite lookup_nil in Hi.
    + destruct j as [|j]; destruct i as [|i]; simpl in *; try lia.
      * injection Hj as ->. rewrite Forall_forall in Hx.
        assert (not_after less b a) as Hba.
        { apply Hx. by eapply list_elem_of_lookup_2. }
        unfold not_after in Hba. congruence.
      * apply (IH i j); [done|done|lia].
Qed.

(** Two entries of equal key in a slice whose keys are distinct are one
    entry. *)
Lemma NoDup_key_lookup {A B} (f : A → B) (r : list A) i j a b :
  NoDup (f <$> r) → r !! i = Some a → r !! j = Some b → f a = f b → i = j.
Proof.
  intros Hnd Hi Hj Hab.
  apply (NoDup_lookup _ i j (f a) Hnd); rewrite list_lookup_fmap.
  - by rewrite Hi.
  - rewrite Hj. simpl. by rewrite Hab.
Qed.

(** ** The queries *)

Section claims.
Context `{GoRuntime}.

Lemma String_eqb_false (a b : string) : a ≠ b → String.eqb a b = false.
Proof. by intros ?%String.eqb_neq. Qed.

Lemma makeslice_ok size cap :
  0 ≤ cap → cap * size ≤ maxAlloc → makeslice size cap = true.
Proof.
  intros ??. unfold makeslice.
  apply andb_true_intro. split; [by apply Z.leb_le | by apply Z.leb_le].
Qed.

Lemma makeslice_nonneg size cap : makeslice size cap = true → 0 ≤ cap.
Proof. unfold makeslice. intros [?%Z.leb_le _]%andb_prop. done. Qed.

Lemma makeslice_zero size : makeslice size 0 = true.
Proof. apply makeslice_ok; [done|]. pose proof maxAlloc_nonneg. lia. Qed.

(** What [SearchStreets] returns on a non-empty query. *)
Lemma SearchStreets_returns s query limit r :
  query ≠ EmptyString →
  SearchStreets s query limit = Returns r →
  0 ≤ limit ∧
  r = sort_Slice (street_less (ToLower (TrimSpace query)))
        (first_distinct Street.FullName
           (street_matches (ToLower (TrimSpace query))) limit (streets s)).
Proof.
  intros Hq. unfold SearchStreets. rewrite String_eqb_false by done.
  destruct (makeslice sizeof_StreetRecord limit) eqn:Hcap; simpl; [|done].
  intros [= <-]. split; [by eapply makeslice_nonneg|].
  by rewrite SearchStreets_loop_first.
Qed.

Lemma SearchStreets_total s query limit :
  0 ≤ limit → limit * sizeof_StreetRecord ≤ maxAlloc →
  ∃ r, SearchStreets s query limit = Returns r.
Proof.
  intros ??. unfold SearchStreets. destruct (String.eqb query EmptyString); [by eexists|].
  rewrite makeslice_ok by done. by eexists.
Qed.

Lemma SearchCities_returns s query woj pow gmi limit r :
  SearchCities s query woj pow gmi limit = Returns r →
  0 ≤ limit ∧
  r = sort_Slice (city_less (ToLower (TrimSpace query)))
        (first_distinct city_key
           (city_kept (ToLower (TrimSpace query)) woj pow gmi) limit (cities s)).
Proof.
  unfold SearchCities.
  destruct (makeslice sizeof_CityRecord limit) eqn:Hcap; simpl; [|done].
  intros [= <-]. split; [by eapply makeslice_nonneg|].
  by rewrite SearchCities_loop_first.
Qed.

Lemma SearchCities_total s query woj pow gmi limit :
  0 ≤ limit → limit * sizeof_CityRecord ≤ maxAlloc →
  ∃ r, SearchCities s query woj pow gmi limit = Returns r.
Proof.
  intros ??. unfold SearchCities. rewrite makeslice_ok by done. by eexists.
Qed.

Lemma sort_Slice_nil {A} (less : A → A → bool) : sort_Slice less [] = [].
Proof. apply Permutation_nil_r. apply sort_Slice_perm. Qed.

Lemma sort_Slice_elem {A} (less : A → A → bool) l x :
  x ∈ sort_Slice less l ↔ x ∈ l.
Proof. by rewrite sort_Slice_perm. Qed.

Lemma sort_Slice_length {A} (less : A → A → bool) l :
  length (sort_Slice less l) = length l.
Proof. by rewrite sort_Slice_perm. Qed.

(** C2. For a non-empty query and a limit the slice can be allocated for,
    [SearchStreets] returns; what it returns has at most [limit] records,
    every record's lowercased primary name contains the lowercased trimmed
    query, and a record whose lowercased primary name starts with it stands
    before every record whose name only contains it. *)
Theorem SearchStreets_bounded_matching_prefix_first s query limit :
  query ≠ EmptyString →
  let q := ToLower (TrimSpace query) in
  (0 ≤ limit → limit * sizeof_StreetRecord ≤ maxAlloc →
     ∃ r, SearchStreets s query limit = Returns r) ∧
  ∀ r, SearchStreets s query limit = Returns r →
    Z.of_nat (length r) ≤ limit ∧
    (∀ x, x ∈ r → Contains (ToLower (Street.NAZWA1 x)) q = true) ∧
    (∀ i j a b, r !! i = Some a → r !! j = Some b →
       HasPrefix (ToLower (Street.NAZWA1 a)) q = true →
       HasPrefix (ToLower (Street.NAZWA1 b)) q = false →
       (i < j)%nat).
Proof.
  intros Hq q. split; [apply SearchStreets_total|].
  intros r Hr. apply SearchStreets_returns in Hr as [Hlimit ->]; [|done].
  fold q. split; [|split].
  - rewrite sort_Slice_length.
    pose proof (first_distinct_length Street.FullName (street_matches q) limit (streets s)).
    lia.
  - intros x [_ Hx]%sort_Slice_elem%first_distinct_elem.
    unfold street_matches in Hx. apply orb_prop in Hx as [Hx|Hx]; [|done].
    by apply HasPrefix_Contains.
  - intros i j a b Hi Hj Ha Hb.
    eapply (sorted_less_before (street_less q)); [| |exact Hi|exact Hj|].
    + apply street_less_ordering.
    + apply sort_Slice_sorted, street_less_ordering.
    + unfold street_less. by rewrite Ha, Hb.
Qed.

Lemma city_tuple_key a b : city_tuple a = city_tuple b → city_key a = city_key b.
Proof. unfold city_tuple, city_key. by intros [= -> -> -> ->]. Qed.

(** C8. In a result of [SearchStreets] two entries of equal display name
    are the same entry, and an entry is the first record in storage order
    that matches the query and has its display name; in a result of
    [SearchCities] two entries equal in name, woj, pow and gmi are the same
    entry, and an entry is the first record in storage order that passes the
    filters, matches the query and has its four values. *)
Theorem results_one_entry_per_key s query woj pow gmi limit :
  (∀ r, SearchStreets s query limit = Returns r →
     (∀ i j a b, r !! i = Some a → r !! j = Some b →
        Street.FullName a = Street.FullName b → i = j) ∧
     (∀ a, a ∈ r → ∃ l1 l2, streets s = l1 ++ a :: l2 ∧
        ∀ y, y ∈ l1 → street_matches (ToLower (TrimSpace query)) y = true →
          Street.FullName y ≠ Street.FullName a)) ∧
  (∀ r, SearchCities s query woj pow gmi limit = Returns r →
     (∀ i j a b, r !! i = Some a → r !! j = Some b →
        city_tuple a = city_tuple b → i = j) ∧
     (∀ a, a ∈ r → ∃ l1 l2, cities s = l1 ++ a :: l2 ∧
        ∀ y, y ∈ l1 → city_kept (ToLower (TrimSpace query)) woj pow gmi y = true →
          city_tuple y ≠ city_tuple a)).
Proof.
  split.
  - intros r Hr. destruct (decide (query = EmptyString)) as [->|Hq].
    { injection Hr as <-. split; [intros i j a b Hi; by rewrite lookup_nil in Hi | by intros ? ?%elem_of_nil]. }
    apply SearchStreets_returns in Hr as [_ ->]; [|done]. split.
    + intros i j a b. apply NoDup_key_lookup.
      rewrite sort_Slice_perm. apply first_distinct_NoDup.
    + intros a Ha%sort_Slice_elem. by apply first_distinct_first in Ha.
  - intros r [_ ->]%SearchCities_returns. split.
    + intros i j a b Hi Hj Hab%city_tuple_key. revert Hi Hj Hab.
      apply NoDup_key_lookup.
      rewrite sort_Slice_perm. apply first_distinct_NoDup.
    + intros a Ha%sort_Slice_elem.
      apply first_distinct_first in Ha as (l1 & l2 & Hl & Hl1).
      exists l1, l2. split; [done|].
      intros y Hy Hk Ht%city_tuple_key. by eapply Hl1.
Qed.

(** C9, as the code has it. Each scan goes through the stored records in
    their order and stops when it holds [limit] records: it collects the
    first [limit] matches of distinct key, and a match dropped as a
    duplicate takes no place among them. *)
Theorem scans_collect_first_distinct_matches query woj pow gmi limit
    (ls : list StreetRecord) (lc : list CityRecord) :
  SearchStreets_loop query limit ls [] ∅ =
    take (Z.to_nat limit)
      (dedup_by Street.FullName ∅ (filter (λ x, street_matches query x = true) ls)) ∧
  SearchCities_loop query woj pow gmi limit lc [] ∅ =
    take (Z.to_nat limit)
      (dedup_by city_key ∅ (filter (λ x, city_kept query woj pow gmi x = true) lc)).
Proof.
  split; [apply SearchStreets_loop_first | apply SearchCities_loop_first].
Qed.

Lemma filter_all {A} (m : A → bool) (l : list A) :
  (∀ x, m x = true) → filter (λ x, m x = true) l = l.
Proof.
  intros Hm. induction l as [|x l IH]; [done|].
  rewrite filter_cons_True by done. by rewrite IH.
Qed.

Lemma street_matches_empty x : street_matches EmptyString x = true.
Proof. unfold street_matches. by rewrite HasPrefix_empty. Qed.

(** A query that is not empty and is trimmed to the empty string matches
    every record. *)
Lemma trimmed_empty_query_collects s query limit :
  query ≠ EmptyString →
  TrimSpace query = EmptyString →
  0 < limit → limit * sizeof_StreetRecord ≤ maxAlloc →
  let collected := take (Z.to_nat limit) (dedup_by Street.FullName ∅ (streets s)) in
  SearchStreets_loop (ToLower (TrimSpace query)) limit (streets s) [] ∅ = collected ∧
  ∃ r, SearchStreets s query limit = Returns r ∧
       r ≡ₚ collected ∧
       StronglySorted (λ a b, string_lt (Street.NAZWA1 b) (Street.NAZWA1 a) = false) r ∧
       (streets s ≠ [] → r ≠ []).
Proof.
  intros Hq Htrim Hpos Hcap collected.
  assert (SearchStreets_loop (ToLower (TrimSpace query)) limit (streets s) [] ∅
          = collected) as Hloop.
  { rewrite SearchStreets_loop_first, Htrim, ToLower_empty. unfold first_distinct.
    by rewrite (filter_all _ _ street_matches_empty). }
  split; [done|].
  destruct (SearchStreets_total s query limit) as [r Hr]; [lia|done|].
  exists r. split; [done|].
  apply SearchStreets_returns in Hr as [_ ->]; [|done].
  rewrite <- SearchStreets_loop_first, Hloop. split; [|split].
  - apply sort_Slice_perm.
  - eapply StronglySorted_weaken;
      [|apply sort_Slice_sorted, street_less_ordering].
    intros a b. unfold not_after, street_less.
    by rewrite Htrim, ToLower_empty, !HasPrefix_empty.
  - intros Hne Hnil.
    pose proof (sort_Slice_length (street_less (ToLower (TrimSpace query))) collected) as Hlen.
    rewrite Hnil in Hlen. simpl in Hlen. subst collected.
    destruct (streets s) as [|x l]; [done|]. simpl in Hlen.
    rewrite decide_False in Hlen by set_solver.
    replace (Z.to_nat limit) with (S (Z.to_nat limit - 1)) in Hlen by lia.
    done.
Qed.

(** C10. A query made of white space only is not empty for the test of
    [SearchStreets] and is trimmed to the empty string, which every name
    contains: with a positive limit the loop collects the first [limit]
    records of distinct display name in storage order, and [SearchStreets]
    returns these records (sorted by primary name), which is not the empty
    sequence when records are stored. *)
Theorem whitespace_query_collects_first_records s query limit :
  query ≠ EmptyString →
  all_bytes asciiSpace query = true →
  0 < limit → limit * sizeof_StreetRecord ≤ maxAlloc →
  let collected := take (Z.to_nat limit) (dedup_by Street.FullName ∅ (streets s)) in
  TrimSpace query = EmptyString ∧
  (∀ x, street_matches (ToLower (TrimSpace query)) x = true) ∧
  SearchStreets_loop (ToLower (TrimSpace query)) limit (streets s) [] ∅ = collected ∧
  ∃ r, SearchStreets s query limit = Returns r ∧
       Search s query limit = Returns r ∧
       r ≡ₚ collected ∧
       StronglySorted (λ a b, string_lt (Street.NAZWA1 b) (Street.NAZWA1 a) = false) r ∧
       (streets s ≠ [] → r ≠ []).
Proof.
  intros Hq Hspace%TrimSpace_asciiSpace Hpos Hcap collected.
  split; [done|]. split.
  - intros x. rewrite Hspace, ToLower_empty. apply street_matches_empty.
  - destruct (trimmed_empty_query_collects s query limit Hq Hspace Hpos Hcap)
      as (Hloop & r & Hr & Hperm & Hsorted & Hne).
    split; [done|]. by exists r.
Qed.

(** C1, as the code has it. [SearchStreets] on the empty query returns the
    empty result whatever the limit; [SearchStreets] and [SearchCities]
    return for every query and every limit from zero up to what the result
    slice can be allocated for; with the limit zero they return the empty
    result; [GetGMIForStreet] has a result for every name. *)
Theorem queries_return_for_limits_in_range s query woj pow gmi limit streetName :
  (∀ limit', SearchStreets s EmptyString limit' = Returns []) ∧
  (0 ≤ limit → limit * sizeof_StreetRecord ≤ maxAlloc →
     ∃ r, SearchStreets s query limit = Returns r) ∧
  (0 ≤ limit → limit * sizeof_CityRecord ≤ maxAlloc →
     ∃ r, SearchCities s query woj pow gmi limit = Returns r) ∧
  SearchStreets s query 0 = Returns [] ∧
  SearchCities s query woj pow gmi 0 = Returns [] ∧
  (∃ r, GetGMIForStreet s streetName = r).
Proof.
  split; [done|]. split; [apply SearchStreets_total|].
  split; [apply SearchCities_total|]. split; [|split].
  - unfold SearchStreets. destruct (String.eqb query EmptyString); [done|].
    rewrite makeslice_zero. simpl.
    rewrite SearchStreets_loop_first. unfold first_distinct.
    change (Z.to_nat 0) with 0%nat. by rewrite take_0, sort_Slice_nil.
  - unfold SearchCities. rewrite makeslice_zero. simpl.
    rewrite SearchCities_loop_first. unfold first_distinct.
    change (Z.to_nat 0) with 0%nat. by rewrite take_0, sort_Slice_nil.
  - by eexists.
Qed.

Lemma city_matches_empty city : city_matches EmptyString city = true.
Proof. done. Qed.

(** C4. On the empty query [SearchStreets] returns the empty sequence for
    every limit, while [SearchCities] takes every record as a match: what
    it returns are the first [limit] records of distinct key among those
    that the filters do not skip. *)
Theorem empty_query_streets_nothing_cities_all s woj pow gmi limit :
  SearchStreets s EmptyString limit = Returns [] ∧
  (∀ city, city_matches (ToLower (TrimSpace EmptyString)) city = true) ∧
  (0 ≤ limit → limit * sizeof_CityRecord ≤ maxAlloc →
     ∃ r, SearchCities s EmptyString woj pow gmi limit = Returns r) ∧
  (∀ r, SearchCities s EmptyString woj pow gmi limit = Returns r →
     r ≡ₚ take (Z.to_nat limit)
            (dedup_by city_key ∅
               (filter (λ c, city_filtered_out woj pow gmi c = false) (cities s)))).
Proof.
  split; [done|]. split; [done|]. split; [apply SearchCities_total|].
  intros r [_ ->]%SearchCities_returns. rewrite sort_Slice_perm.
  unfold first_distinct. change (ToLower (TrimSpace EmptyString)) with EmptyString.
  replace (filter (λ x, city_kept EmptyString woj pow gmi x = true) (cities s))
    with (filter (λ c, city_filtered_out woj pow gmi c = false) (cities s)); [done|].
  apply list_filter_iff. intros c. unfold city_kept.
  rewrite city_matches_empty, andb_true_r. by destruct (city_filtered_out woj pow gmi c).
Qed.


Lemma city_filtered_out_sound woj pow gmi city :
  city_filtered_out woj pow gmi city = false →
  (0 < woj → City.WOJ city = woj) ∧
  (0 < pow → City.POW city = pow) ∧
  (0 < gmi → City.GMI city = gmi).
Proof.
  unfold city_filtered_out.
  destruct (Z.gtb_spec woj 0), (Z.gtb_spec pow 0), (Z.gtb_spec gmi 0),
    (Z.eqb_spec (City.WOJ city) woj), (Z.eqb_spec (City.POW city) pow),
    (Z.eqb_spec (City.GMI city) gmi); simpl; try done; lia.
Qed.



End claims.

(** ** The keys of GetGMIForStreet are distinct for distinct entries *)

Lemma string_of_uint_dashless d : dashless (NilEmpty.string_of_uint d).
Proof. unfold dashless. induction d; simpl; done. Qed.

Lemma Sprintf_d_inj a b : Sprintf_d a = Sprintf_d b → a = b.
Proof.
  assert (∀ n, NilZero.int_of_string (Sprintf_d n) = Some (Z.to_int n)) as Hparse.
  { intros n. unfold Sprintf_d. apply NilZero.isi.
    - destruct n as [|p|p]; simpl; [done| |done].
      intros [= Hp]. by apply DecimalPos.Unsigned.to_uint_nonnil in Hp.
    - destruct n as [|p|p]; simpl; [done|done|].
      intros [= Hp]. by apply DecimalPos.Unsigned.to_uint_nonnil in Hp. }
  intros E. pose proof (Hparse a) as Ha. rewrite E, Hparse in Ha.
  injection Ha as Ha. rewrite <- (DecimalZ.of_to a), <- (DecimalZ.of_to b).
  by rewrite Ha.
Qed.

(** [%d] prints digits, after a dash for a negative number. *)
Lemma Sprintf_d_shape n :
  ∃ u, dashless u ∧ u ≠ EmptyString ∧
       (Sprintf_d n = u ∨ Sprintf_d n = String "-" u).
Proof.
  assert (∀ p, dashless (NilZero.string_of_uint (Pos.to_uint p)) ∧
               NilZero.string_of_uint (Pos.to_uint p) ≠ EmptyString) as Hpos.
  { intros p. pose proof (DecimalPos.Unsigned.to_uint_nonnil p) as Hp.
    destruct (Pos.to_uint p) as [|d|d|d|d|d|d|d|d|d|d] eqn:E; [done|..];
      (split; [apply (string_of_uint_dashless (_ d)) | done]). }
  destruct n as [|p|p].
  - exists "0". repeat split; [done|by left].
  - exists (NilZero.string_of_uint (Pos.to_uint p)).
    destruct (Hpos p). repeat split; [done|done|by left].
  - exists (NilZero.string_of_uint (Pos.to_uint p)).
    destruct (Hpos p). repeat split; [done|done|by right].
Qed.






(** ** The loaders *)

Lemma append_cons c (s t : string) : String c s +:+ t = String c (s +:+ t).
Proof. reflexivity. Qed.

Lemma append_empty_r (s : string) : s +:+ EmptyString = s.
Proof. induction s as [|c s IH]; [done|]. by rewrite append_cons, IH. Qed.

Lemma append_assoc (a b c : string) : (a +:+ b) +:+ c = a +:+ (b +:+ c).
Proof. induction a as [|x a IH]; [done|]. by rewrite !append_cons, IH. Qed.

Lemma append_byte_length (a : string) b :
  String.length (a +:+ String b EmptyString) = S (String.length a).
Proof. induction a as [|x a IH]; [done|]. rewrite append_cons. simpl. by rewrite IH. Qed.

(** [readLine] with bytes already in the builder puts them before the rest
    of the line. *)
Lemma readLine_loop_builder r line :
  readLine_loop r line =
  match readLine r with
  | Some (l, r') => Some (line +:+ l, r')
  | None => if 0 <? Z.of_nat (String.length line) then Some (line, EmptyString) else None
  end.
Proof.
  unfold readLine. revert line. induction r as [|b r IH]; intros line; simpl.
  - done.
  - destruct (Ascii.eqb b "010"); simpl; [by rewrite append_empty_r|].
    destruct (Ascii.eqb b "013"); simpl; [apply IH|].
    change (EmptyString +:+ String b EmptyString) with (String b EmptyString).
    rewrite (IH (line +:+ String b EmptyString)), (IH (String b EmptyString)).
    destruct (readLine_loop r EmptyString) as [[l r']|].
    + by rewrite append_assoc.
    + rewrite append_byte_length. done.
Qed.

Lemma Split_nonempty s sep : ∃ f fs, Split s sep = f :: fs.
Proof.
  induction s as [|c s (f & fs & IH)]; simpl; [by eexists _, _|].
  destruct (Ascii.eqb c sep); [by eexists _, _|]. rewrite IH. by eexists _, _.
Qed.

Lemma pieces_nonempty r : ∃ p ps, pieces r = p :: ps.
Proof.
  unfold pieces. destruct (Split_nonempty r "010") as (f & fs & ->).
  by eexists _, _.
Qed.

Lemma pieces_newline r : pieces (String "010" r) = EmptyString :: pieces r.
Proof. done. Qed.

Lemma pieces_byte b r p ps :
  Ascii.eqb b "010" = false → pieces r = p :: ps →
  pieces (String b r) =
  (if Ascii.eqb b "013" then p else String b p) :: ps.
Proof.
  unfold pieces. simpl. intros -> Hr.
  destruct (Split r "010") as [|f fs]; [done|]. simpl in *.
  injection Hr as <- <-. done.
Qed.

Lemma input_lines_pieces r : input_lines r = drop_empty_last (pieces r).
Proof. reflexivity. Qed.

(** Each call of [readLine] takes the next line off the input; it reports
    the end when no line is left. *)
Lemma readLine_input_lines r :
  (readLine r = None ∧ input_lines r = []) ∨
  (∃ l r', readLine r = Some (l, r') ∧
           input_lines r = l :: input_lines r' ∧
           (String.length r' < String.length r)%nat).
Proof.
  induction r as [|b r IH]; [by left|].
  destruct (Ascii.eqb b "010") eqn:Hnl.
  { right. apply Ascii.eqb_eq in Hnl as ->. exists EmptyString, r.
    split; [done|]. split; [|simpl; lia].
    rewrite !input_lines_pieces, pieces_newline.
    by destruct (pieces_nonempty r) as (p & ps & ->). }
  destruct (pieces_nonempty r) as (p & ps & Hr).
  assert (readLine (String b r) =
          readLine_loop r (if Ascii.eqb b "013" then EmptyString else String b EmptyString))
    as ->.
  { unfold readLine. simpl. rewrite Hnl. by destruct (Ascii.eqb b "013"). }
  rewrite (input_lines_pieces (String b r)), (pieces_byte b r p ps Hnl Hr).
  rewrite (input_lines_pieces r), Hr in IH.
  destruct (Ascii.eqb b "013") eqn:Hcr.
  - destruct IH as [[Hn Hl]|(l & r' & Hs & Hl & Hlen)].
    + left. done.
    + right. exists l, r'. split; [done|]. split; [done | simpl; lia].
  - rewrite readLine_loop_builder. right.
    destruct IH as [[-> Hl]|(l & r' & -> & Hl & Hlen)].
    + exists (String b EmptyString), EmptyString. split; [done|]. split; [|simpl; lia].
      destruct ps as [|q qs]; simpl in Hl; [|done].
      destruct (String.eqb_spec p EmptyString) as [Hp|Hp]; [by subst p | done].
    + exists (String b l), r'. split; [done|]. split; [|simpl; lia].
      destruct ps as [|q qs]; simpl in Hl.
      * destruct (String.eqb p EmptyString); [done|]. by injection Hl as -> <-.
      * by injection Hl as -> <-.
Qed.

Lemma skip_header_lines data :
  input_lines (skip_header data) = data_lines data ∧
  (String.length (skip_header data) ≤ String.length data)%nat.
Proof.
  unfold skip_header, data_lines.
  destruct (readLine_input_lines data) as [[-> Hl]|(l & r' & -> & -> & Hlen)].
  - by rewrite Hl.
  - split; [done | lia].
Qed.

Section loaders.
Context `{GoRuntime}.

Lemma LoadCSV_loop_lines fuel scanner acc :
  (String.length scanner < fuel)%nat →
  LoadCSV_loop fuel scanner acc =
  acc ++ (street_of_line <$> filter (λ l, line_ok 7 l = true) (input_lines scanner)).
Proof.
  revert scanner acc. induction fuel as [|fuel IH]; intros scanner acc Hfuel; [lia|].
  simpl.
  destruct (readLine_input_lines scanner) as [[-> ->]|(line & scanner' & -> & -> & Hlen)].
  { by rewrite app_nil_r. }
  destruct (Z.of_nat (length (Split line ";")) =? 10) eqn:Hten; simpl.
  - fold (line_fields line).
    destruct (String.eqb (field (line_fields line) 7) EmptyString) eqn:Hname.
    + rewrite filter_cons_False by (unfold line_ok; rewrite Hten, Hname; done).
      apply IH. lia.
    + rewrite filter_cons_True by (unfold line_ok; rewrite Hten, Hname; done).
      rewrite IH by lia. by rewrite fmap_cons, <- app_assoc.
  - rewrite filter_cons_False by (unfold line_ok; rewrite Hten; done).
    apply IH. lia.
Qed.

Lemma LoadCitiesCSV_loop_lines fuel scanner acc :
  (String.length scanner < fuel)%nat →
  LoadCitiesCSV_loop fuel scanner acc =
  acc ++ (city_of_line <$> filter (λ l, line_ok 6 l = true) (input_lines scanner)).
Proof.
  revert scanner acc. induction fuel as [|fuel IH]; intros scanner acc Hfuel; [lia|].
  simpl.
  destruct (readLine_input_lines scanner) as [[-> ->]|(line & scanner' & -> & -> & Hlen)].
  { by rewrite app_nil_r. }
  destruct (Z.of_nat (length (Split line ";")) =? 10) eqn:Hten; simpl.
  - fold (line_fields line).
    destruct (String.eqb (field (line_fields line) 6) EmptyString) eqn:Hname.
    + rewrite filter_cons_False by (unfold line_ok; rewrite Hten, Hname; done).
      apply IH. lia.
    + rewrite filter_cons_True by (unfold line_ok; rewrite Hten, Hname; done).
      rewrite IH by lia. by rewrite fmap_cons, <- app_assoc.
  - rewrite filter_cons_False by (unfold line_ok; rewrite Hten; done).
    apply IH. lia.
Qed.

Lemma LoadCSV_streets s data :
  streets (LoadCSV s (Some data)).1 =
  street_of_line <$> filter (λ l, line_ok 7 l = true) (data_lines data).
Proof.
  destruct (skip_header_lines data) as [Hlines Hlen].
  unfold LoadCSV. cbn [fst streets].
  rewrite LoadCSV_loop_lines by lia. by rewrite Hlines.
Qed.

(** A loaded street has a primary name. *)
Lemma LoadCSV_names s data x :
  x ∈ streets (LoadCSV s (Some data)).1 → Street.NAZWA1 x ≠ EmptyString.
Proof.
  rewrite LoadCSV_streets. intros (l & -> & [Hl _]%list_elem_of_filter)%list_elem_of_fmap.
  unfold line_ok in Hl. apply andb_prop in Hl as [_ Hl].
  simpl. intros Hn. unfold line_fields in *. rewrite Hn in Hl. done.
Qed.

(** C3. The loaders turn every line after the header that has ten fields
    and a name that is not empty once cleaned into one record, in the order
    of the lines; the other lines give no record, and the lines after them
    are loaded all the same. *)
Theorem loaders_keep_valid_lines_in_order s data :
  LoadCSV s (Some data) =
    ({| streets := street_of_line <$> filter (λ l, line_ok 7 l = true) (data_lines data);
        cities := cities s |}, None) ∧
  LoadCitiesCSV s (Some data) =
    ({| streets := streets s;
        cities := city_of_line <$> filter (λ l, line_ok 6 l = true) (data_lines data) |},
     None).
Proof.
  destruct (skip_header_lines data) as [Hlines Hlen].
  unfold LoadCSV, LoadCitiesCSV.
  rewrite LoadCSV_loop_lines, LoadCitiesCSV_loop_lines by lia.
  by rewrite Hlines.
Qed.

End loaders.

(** ** The lookup of the municipalities of a street *)



Lemma sorted_strict {A} (less : A → A → bool) (l : list A) :
  (∀ a b, a ≠ b → less b a = false → less a b = true) →
  NoDup l → StronglySorted (not_after less) l →
  StronglySorted (λ a b, less a b = true) l.
Proof.
  intros Htot Hnd Hl. induction Hl as [|x l Hl IH Hx].
  - constructor.
  - apply NoDup_cons in Hnd as [Hx' Hnd]. constructor; [by apply IH|].
    rewrite Forall_forall in *. intros y Hy. apply Htot; [|by apply Hx].
    intros ->. done.
Qed.


Section lookup.
Context `{GoRuntime}.


End lookup.

(** * Further properties of the queries *)

Lemma take_short {A} (l : list A) n :
  (length (take n l) < n)%nat → take n l = l.
Proof. rewrite length_take. intros Hlen. apply take_ge. lia. Qed.

Lemma take_le_elem {A} (l : list A) n m x :
  (n ≤ m)%nat → x ∈ take n l → x ∈ take m l.
Proof.
  intros Hnm (i & Hi & Hlt)%elem_of_take. apply elem_of_take.
  exists i. split; [done | lia].
Qed.

Lemma take_le_prefix {A} (l : list A) n m :
  (n ≤ m)%nat → take n l `prefix_of` take m l.
Proof.
  intros Hnm. replace n with (n `min` m)%nat by lia.
  rewrite <- take_take. apply prefix_take.
Qed.

Lemma HasPrefix_refl s : HasPrefix s s = true.
Proof. induction s as [|c s IH]; simpl; [done|]. by rewrite Ascii.eqb_refl. Qed.

Lemma dedup_by_nil {A} (key : A → string) (l : list A) :
  dedup_by key ∅ l = [] → l = [].
Proof.
  destruct l as [|x l]; [done|]. simpl.
  by rewrite decide_False by set_solver.
Qed.

Lemma first_distinct_empty {A} (key : A → string) (matches : A → bool) limit l :
  0 < limit → first_distinct key matches limit l = [] →
  ∀ x, x ∈ l → matches x = false.
Proof.
  unfold first_distinct. intros Hpos Hnil x Hx.
  destruct (matches x) eqn:Hm; [|done]. exfalso.
  destruct (dedup_by key ∅ (filter (λ y, matches y = true) l)) as [|y ys] eqn:Hd.
  - apply dedup_by_nil in Hd.
    assert (x ∈ filter (λ y, matches y = true) l) as Hin by (by apply list_elem_of_filter).
    rewrite Hd in Hin. by apply elem_of_nil in Hin.
  - replace (Z.to_nat limit) with (S (Z.to_nat limit - 1)) in Hnil by lia. done.
Qed.

Section more_queries.
Context `{GoRuntime}.

(** X1. Every record of a result of [SearchStreets] is a stored record, and
    among the records that start with the query, as among those that do
    not, no record has a smaller primary name than a record before it. *)
Theorem SearchStreets_stored_and_ordered_in_groups s query limit r :
  SearchStreets s query limit = Returns r →
  let q := ToLower (TrimSpace query) in
  (∀ x, x ∈ r → x ∈ streets s) ∧
  (∀ i j a b, r !! i = Some a → r !! j = Some b → (i < j)%nat →
     HasPrefix (ToLower (Street.NAZWA1 a)) q = HasPrefix (ToLower (Street.NAZWA1 b)) q →
     string_lt (Street.NAZWA1 b) (Street.NAZWA1 a) = false).
Proof.
  intros Hr q. destruct (decide (query = EmptyString)) as [->|Hq].
  { injection Hr as <-. split; [by intros ? ?%elem_of_nil|].
    intros i j a b Hi. by rewrite lookup_nil in Hi. }
  apply SearchStreets_returns in Hr as [_ ->]; [|done]. fold q. split.
  - by intros x [Hx _]%sort_Slice_elem%first_distinct_elem.
  - intros i j a b Hi Hj Hij Hgroup.
    pose proof (StronglySorted_at _ _ _ _ _ _
      (sort_Slice_sorted _ (street_less q) _ (street_less_ordering q)) Hi Hj Hij) as Hba.
    unfold not_after, street_less in Hba. rewrite Hgroup in Hba.
    by destruct (HasPrefix (ToLower (Street.NAZWA1 b)) q).
Qed.

(** X2. A result of [SearchStreets] with fewer records than the limit misses
    nothing: every stored record that matches the query has its display name
    in the result. *)
Theorem SearchStreets_short_result_complete s query limit r :
  query ≠ EmptyString →
  SearchStreets s query limit = Returns r →
  Z.of_nat (length r) < limit →
  ∀ x, x ∈ streets s →
    street_matches (ToLower (TrimSpace query)) x = true →
    ∃ y, y ∈ r ∧ Street.FullName y = Street.FullName x.
Proof.
  intros Hq Hr Hshort x Hx Hm.
  apply SearchStreets_returns in Hr as [Hlimit ->]; [|done].
  rewrite sort_Slice_length in Hshort. unfold first_distinct in *.
  rewrite take_short in * by lia.
  destruct (dedup_by_complete Street.FullName ∅
              (filter (λ x, street_matches (ToLower (TrimSpace query)) x = true) (streets s)) x)
    as (y & Hy & Hkey); [by apply list_elem_of_filter | set_solver |].
  exists y. split; [by apply sort_Slice_elem | done].
Qed.

(** X3. Raising the limit loses nothing: the scan with the smaller limit
    collects a prefix of what the scan with the larger limit collects, and
    every record of the smaller result is in the larger one. *)
Theorem SearchStreets_limit_monotone s query limit limit' r r' :
  limit ≤ limit' →
  SearchStreets s query limit = Returns r →
  SearchStreets s query limit' = Returns r' →
  SearchStreets_loop (ToLower (TrimSpace query)) limit (streets s) [] ∅
    `prefix_of`
    SearchStreets_loop (ToLower (TrimSpace query)) limit' (streets s) [] ∅ ∧
  ∀ x, x ∈ r → x ∈ r'.
Proof.
  intros Hle Hr Hr'. split.
  { rewrite !SearchStreets_loop_first. unfold first_distinct.
    apply take_le_prefix. lia. }
  destruct (decide (query = EmptyString)) as [->|Hq].
  { injection Hr as <-. by intros ? ?%elem_of_nil. }
  apply SearchStreets_returns in Hr as [_ ->]; [|done].
  apply SearchStreets_returns in Hr' as [_ ->]; [|done].
  intros x Hx%sort_Slice_elem. apply sort_Slice_elem.
  unfold first_distinct in *. eapply take_le_elem; [|exact Hx]. lia.
Qed.

(** X4. A result of [SearchCities] has at most [limit] records, all of them
    stored; for a query that is not blank every record's lowercased name
    contains the lowercased trimmed query and the records whose name starts
    with it come first; within each of the two groups (and over the whole
    result for a blank query) the names do not decrease. *)
Theorem SearchCities_bounded_matching_ranked s query woj pow gmi limit r :
  SearchCities s query woj pow gmi limit = Returns r →
  let q := ToLower (TrimSpace query) in
  Z.of_nat (length r) ≤ limit ∧
  (∀ c, c ∈ r → c ∈ cities s ∧
     (q ≠ EmptyString → Contains (ToLower (City.NAZWA c)) q = true)) ∧
  (q ≠ EmptyString → ∀ i j a b, r !! i = Some a → r !! j = Some b →
     HasPrefix (ToLower (City.NAZWA a)) q = true →
     HasPrefix (ToLower (City.NAZWA b)) q = false → (i < j)%nat) ∧
  (∀ i j a b, r !! i = Some a → r !! j = Some b → (i < j)%nat →
     HasPrefix (ToLower (City.NAZWA a)) q = HasPrefix (ToLower (City.NAZWA b)) q →
     string_lt (City.NAZWA b) (City.NAZWA a) = false).
Proof.
  intros [Hlimit ->]%SearchCities_returns q. fold q.
  pose proof (sort_Slice_sorted _ (city_less q)
    (first_distinct city_key (city_kept q woj pow gmi) limit (cities s))
    (city_less_ordering q)) as Hsorted.
  split; [|split; [|split]].
  - rewrite sort_Slice_length.
    pose proof (first_distinct_length city_key (city_kept q woj pow gmi) limit (cities s)).
    lia.
  - intros c [Hc Hk]%sort_Slice_elem%first_distinct_elem. split; [done|].
    intros Hq. unfold city_kept, city_matches in Hk.
    apply andb_prop in Hk as [_ Hk]. rewrite String_eqb_false in Hk by done.
    simpl in Hk. apply orb_prop in Hk as [Hk|Hk]; [by apply HasPrefix_Contains | done].
  - intros Hq i j a b Hi Hj Ha Hb.
    eapply (sorted_less_before (city_less q)); [| |exact Hi|exact Hj|].
    + apply city_less_ordering.
    + done.
    + unfold city_less. rewrite String_eqb_false by done. by rewrite Ha, Hb.
  - intros i j a b Hi Hj Hij Hgroup.
    pose proof (StronglySorted_at _ _ _ _ _ _ Hsorted Hi Hj Hij) as Hba.
    unfold not_after, city_less in Hba. rewrite Hgroup in Hba.
    destruct (String.eqb q EmptyString); [done|].
    by destruct (HasPrefix (ToLower (City.NAZWA b)) q).
Qed.

Lemma filter_test_max (w v : Z) :
  (w >? 0) && negb (v =? w) = (Z.max 0 w >? 0) && negb (v =? Z.max 0 w).
Proof.
  destruct (Z.max_spec 0 w) as [[Hw ->]|[Hw ->]]; [done|].
  destruct (Z.gtb_spec w 0); [lia | reflexivity].
Qed.

(** X5. A filter value below zero asks nothing, as zero does. *)
Theorem SearchCities_negative_filter_is_no_filter s query woj pow gmi limit :
  SearchCities s query woj pow gmi limit =
  SearchCities s query (Z.max 0 woj) (Z.max 0 pow) (Z.max 0 gmi) limit.
Proof.
  unfold SearchCities. destruct (makeslice sizeof_CityRecord limit); simpl; [|done].
  rewrite !SearchCities_loop_first. unfold first_distinct. do 4 f_equal.
  apply list_filter_iff. intros c. unfold city_kept, city_filtered_out.
  by rewrite <- !filter_test_max.
Qed.

End more_queries.

(** ** The key of a city *)

Lemma dashless_append_dash a b : ¬ dashless (a +:+ String "-" b).
Proof.
  unfold dashless. induction a as [|c a IH]; [done|].
  rewrite append_cons. simpl. intros [_ ?]%andb_prop. by apply IH.
Qed.

Lemma dashless_split_right s1 s2 d1 d2 :
  dashless d1 → dashless d2 →
  s1 +:+ String "-" d1 = s2 +:+ String "-" d2 → s1 = s2 ∧ d1 = d2.
Proof.
  intros Hd1 Hd2. revert s2. induction s1 as [|c s1 IH]; intros [|c' s2].
  - by intros [= ->].
  - rewrite append_cons. intros [= <- E]. rewrite E in Hd1.
    by apply dashless_append_dash in Hd1.
  - rewrite append_cons. intros [= -> E]. rewrite <- E in Hd2.
    by apply dashless_append_dash in Hd2.
  - rewrite !append_cons. intros [= -> E]. by destruct (IH _ E) as [-> ->].
Qed.

Lemma Sprintf_d_nonneg_dashless n : 0 ≤ n → dashless (Sprintf_d n).
Proof.
  intros Hn. destruct (Sprintf_d_shape n) as (u & Hu & Hne & [->| E]); [done|].
  exfalso. destruct n as [|p|p]; [done| |lia].
  unfold Sprintf_d in E. simpl in E.
  pose proof (DecimalPos.Unsigned.to_uint_nonnil p) as Hp.
  destruct (Pos.to_uint p); [done|..]; simpl in E; by injection E.
Qed.

Lemma city_key_assoc (a w p g : string) :
  a +:+ "-" +:+ w +:+ "-" +:+ p +:+ "-" +:+ g =
  ((a +:+ String "-" w) +:+ String "-" p) +:+ String "-" g.
Proof. by rewrite !append_assoc, !append_cons. Qed.

(** For codes that are not negative the key tells the name and the three
    codes apart. *)
Lemma city_key_exact a b :
  0 ≤ City.WOJ a → 0 ≤ City.POW a → 0 ≤ City.GMI a →
  0 ≤ City.WOJ b → 0 ≤ City.POW b → 0 ≤ City.GMI b →
  city_key a = city_key b → city_tuple a = city_tuple b.
Proof.
  intros ?%Sprintf_d_nonneg_dashless ?%Sprintf_d_nonneg_dashless
         ?%Sprintf_d_nonneg_dashless ?%Sprintf_d_nonneg_dashless
         ?%Sprintf_d_nonneg_dashless ?%Sprintf_d_nonneg_dashless.
  unfold city_key, city_tuple. rewrite !city_key_assoc.
  intros E.
  apply dashless_split_right in E as [E Hg]; [|done|done].
  apply dashless_split_right in E as [E Hp]; [|done|done].
  apply dashless_split_right in E as [E Hw]; [|done|done].
  by rewrite E, (Sprintf_d_inj _ _ Hw), (Sprintf_d_inj _ _ Hp), (Sprintf_d_inj _ _ Hg).
Qed.

Section more_lookup.
Context `{GoRuntime}.

(** X6. When no stored city has a negative code, a result of [SearchCities]
    with fewer records than the limit misses nothing: for every stored city
    that passes the filters and matches the query, the result holds a record
    of the same name, woj, pow and gmi. *)
Theorem SearchCities_short_result_complete s query woj pow gmi limit r :
  (∀ c, c ∈ cities s → 0 ≤ City.WOJ c ∧ 0 ≤ City.POW c ∧ 0 ≤ City.GMI c) →
  SearchCities s query woj pow gmi limit = Returns r →
  Z.of_nat (length r) < limit →
  ∀ c, c ∈ cities s →
    city_kept (ToLower (TrimSpace query)) woj pow gmi c = true →
    ∃ c', c' ∈ r ∧ city_tuple c' = city_tuple c.
Proof.
  intros Hcodes [Hlimit ->]%SearchCities_returns Hshort c Hc Hk.
  rewrite sort_Slice_length in Hshort.
  set (q := ToLower (TrimSpace query)) in *.
  assert (first_distinct city_key (city_kept q woj pow gmi) limit (cities s)
          = dedup_by city_key ∅ (filter (λ x, city_kept q woj pow gmi x = true) (cities s)))
    as Hall.
  { unfold first_distinct in *. apply take_short. lia. }
  rewrite Hall in *.
  destruct (dedup_by_complete city_key ∅
              (filter (λ x, city_kept q woj pow gmi x = true) (cities s)) c)
    as (c' & Hc' & Hkey); [by apply list_elem_of_filter | set_solver |].
  exists c'. split; [by apply sort_Slice_elem|].
  pose proof Hc' as [[_ Hin]%list_elem_of_filter _]%dedup_by_elem.
  destruct (Hcodes c Hc) as (? & ? & ?), (Hcodes c' Hin) as (? & ? & ?).
  by apply city_key_exact.
Qed.


Lemma GetGMIForStreet_found s streetName :
  GetGMIForStreet s streetName ≠ [] →
  TrimSpace streetName ≠ EmptyString ∧
  ∃ x, x ∈ streets s ∧
       ToLower (Street.NAZWA1 x) = ToLower (TrimSpace streetName).
Proof.
  unfold GetGMIForStreet.
  destruct (String.eqb_spec (TrimSpace streetName) EmptyString) as [|Hn]; [done|].
  intros Hfound. split; [done|]. rewrite GetGMIForStreet_loop_first in Hfound.
  destruct (filter (λ x, name_is (ToLower (TrimSpace streetName)) x = true) (streets s))
    as [|x l] eqn:Hf.
  - exfalso. apply Hfound. simpl. apply sort_Slice_nil.
  - assert (x ∈ filter (λ x, name_is (ToLower (TrimSpace streetName)) x = true) (streets s))
      as [Hx ?]%list_elem_of_filter by (rewrite Hf; by left).
    exists x. split; [done|]. by apply String.eqb_eq.
Qed.

(** X8. A name for which [GetGMIForStreet] has an entry is found by
    [SearchStreets] as well, whatever the positive limit. *)
Theorem exact_name_found_by_search s streetName limit :
  GetGMIForStreet s streetName ≠ [] →
  0 < limit → limit * sizeof_StreetRecord ≤ maxAlloc →
  ∃ r, SearchStreets s streetName limit = Returns r ∧ r ≠ [].
Proof.
  intros Hfound Hpos Hcap.
  destruct (GetGMIForStreet_found s streetName Hfound) as (Hn & x & Hx & Hexact).
  assert (streetName ≠ EmptyString) as Hq by (by intros ->).
  destruct (SearchStreets_total s streetName limit) as [r Hr]; [lia|done|].
  exists r. split; [done|].
  apply SearchStreets_returns in Hr as [_ ->]; [|done]. intros Hnil.
  pose proof (sort_Slice_length (street_less (ToLower (TrimSpace streetName)))
    (first_distinct Street.FullName (street_matches (ToLower (TrimSpace streetName)))
       limit (streets s))) as Hlen.
  rewrite Hnil in Hlen. simpl in Hlen. symmetry in Hlen.
  apply length_zero_iff_nil in Hlen. unfold first_distinct in Hlen.
  assert (x ∈ filter (λ y, street_matches (ToLower (TrimSpace streetName)) y = true)
                (streets s)) as Hin.
  { apply list_elem_of_filter. split; [|done].
    unfold street_matches. by rewrite Hexact, HasPrefix_refl. }
  destruct (dedup_by Street.FullName ∅
              (filter (λ y, street_matches (ToLower (TrimSpace streetName)) y = true)
                 (streets s))) as [|y ys] eqn:Hd.
  - apply dedup_by_nil in Hd. rewrite Hd in Hin. by apply elem_of_nil in Hin.
  - replace (Z.to_nat limit) with (S (Z.to_nat limit - 1)) in Hlen by lia. done.
Qed.

End more_lookup.

(** ** Upper and lower case in the query *)

Lemma lower_byte_ascii c : is_ascii_byte (lower_byte c) = is_ascii_byte c.
Proof. destruct c as [[] [] [] [] [] [] [] []]; reflexivity. Qed.

Lemma lower_byte_space c : asciiSpace (lower_byte c) = asciiSpace c.
Proof. destruct c as [[] [] [] [] [] [] [] []]; reflexivity. Qed.

Lemma rev_bytes_lower s acc :
  rev_bytes (map_bytes lower_byte s) (map lower_byte acc)
  = map lower_byte (rev_bytes s acc).
Proof.
  revert acc. induction s as [|c s IH]; intros acc; simpl; [done|].
  by rewrite <- IH.
Qed.

Lemma unrev_bytes_lower r acc :
  unrev_bytes (map lower_byte r) (map_bytes lower_byte acc)
  = map_bytes lower_byte (unrev_bytes r acc).
Proof.
  revert acc. induction r as [|c r IH]; intros acc; simpl; [done|].
  by rewrite <- IH.
Qed.

Lemma rev_bytes_Forall (p : ascii → bool) s acc :
  all_bytes p s = true → Forall (λ c, p c = true) acc →
  Forall (λ c, p c = true) (rev_bytes s acc).
Proof.
  revert acc. induction s as [|c s IH]; intros acc; simpl; [done|].
  intros [??]%andb_prop Hacc. apply IH; [done|]. by constructor.
Qed.

Lemma unrev_bytes_all (p : ascii → bool) r acc :
  Forall (λ c, p c = true) r → all_bytes p acc = true →
  all_bytes p (unrev_bytes r acc) = true.
Proof.
  revert acc. induction r as [|c r IH]; intros acc Hr Hacc; simpl; [done|].
  apply Forall_cons in Hr as [Hc Hr]. apply IH; [done|]. simpl. by rewrite Hc.
Qed.

Section case.
Context `{GoRuntime}.

Lemma ToLower_ascii s :
  all_bytes is_ascii_byte s = true → ToLower s = map_bytes lower_byte s.
Proof. intros Hs. unfold ToLower. by rewrite Hs. Qed.

Lemma TrimSpace_stop_lower r :
  Forall (λ c, is_ascii_byte c = true) r →
  TrimSpace_stop (map lower_byte r) = map_bytes lower_byte (TrimSpace_stop r) ∧
  all_bytes is_ascii_byte (TrimSpace_stop r) = true.
Proof.
  induction 1 as [|c r Hc Hr IH]; simpl; [done|].
  rewrite lower_byte_ascii, lower_byte_space, Hc. simpl.
  destruct (asciiSpace c); [done|]. split.
  - apply (unrev_bytes_lower (c :: r) EmptyString).
  - apply (unrev_bytes_all is_ascii_byte (c :: r)); [by constructor | done].
Qed.

Lemma TrimSpace_lower s :
  all_bytes is_ascii_byte s = true →
  TrimSpace (map_bytes lower_byte s) = map_bytes lower_byte (TrimSpace s) ∧
  all_bytes is_ascii_byte (TrimSpace s) = true.
Proof.
  induction s as [|c s IH]; [done|].
  intros Hs. pose proof Hs as [Hc Hs']%andb_prop.
  cbn [map_bytes TrimSpace]. rewrite lower_byte_ascii, lower_byte_space, Hc.
  cbn [negb]. destruct (asciiSpace c); [by apply IH|].
  change (String (lower_byte c) (map_bytes lower_byte s))
    with (map_bytes lower_byte (String c s)).
  pose proof (rev_bytes_lower (String c s) []) as E. cbn [map] in E. rewrite E.
  apply TrimSpace_stop_lower. by apply rev_bytes_Forall.
Qed.

(** The query as the searches use it, for a query of ASCII bytes. *)
Lemma query_normal_form query :
  all_bytes is_ascii_byte query = true →
  ToLower (TrimSpace query) = TrimSpace (map_bytes lower_byte query).
Proof.
  intros Hq. destruct (TrimSpace_lower query Hq) as [-> Hascii].
  by apply ToLower_ascii.
Qed.

Lemma map_bytes_empty f s : map_bytes f s = EmptyString ↔ s = EmptyString.
Proof. by destruct s. Qed.

(** X9. The three queries do not tell upper case from lower case: two queries
    of ASCII bytes that differ in the case of their letters only get the
    same answer. *)
Theorem queries_ignore_case s q1 q2 woj pow gmi limit :
  all_bytes is_ascii_byte q1 = true →
  all_bytes is_ascii_byte q2 = true →
  map_bytes lower_byte q1 = map_bytes lower_byte q2 →
  SearchStreets s q1 limit = SearchStreets s q2 limit ∧
  SearchCities s q1 woj pow gmi limit = SearchCities s q2 woj pow gmi limit ∧
  GetGMIForStreet s q1 = GetGMIForStreet s q2.
Proof.
  intros H1 H2 Hsame.
  assert (ToLower (TrimSpace q1) = ToLower (TrimSpace q2)) as Hnorm.
  { by rewrite !query_normal_form, Hsame. }
  assert (String.eqb q1 EmptyString = String.eqb q2 EmptyString) as Hempty.
  { destruct (String.eqb_spec q1 EmptyString) as [->|Hq1],
             (String.eqb_spec q2 EmptyString) as [->|Hq2]; try done.
    - symmetry in Hsame. by apply map_bytes_empty in Hsame.
    - by apply map_bytes_empty in Hsame. }
  assert (String.eqb (TrimSpace q1) EmptyString = String.eqb (TrimSpace q2) EmptyString)
    as Hblank.
  { destruct (TrimSpace_lower q1 H1) as [E1 A1], (TrimSpace_lower q2 H2) as [E2 A2].
    rewrite Hsame, E2 in E1.
    destruct (String.eqb_spec (TrimSpace q1) EmptyString) as [Hq1|Hq1],
             (String.eqb_spec (TrimSpace q2) EmptyString) as [Hq2|Hq2]; try done.
    - rewrite Hq1 in E1. by apply map_bytes_empty in E1.
    - rewrite Hq2 in E1. symmetry in E1. by apply map_bytes_empty in E1. }
  split; [|split].
  - unfold SearchStreets. by rewrite Hempty, Hnorm.
  - unfold SearchCities. by rewrite Hnorm.
  - unfold GetGMIForStreet. by rewrite Hblank, Hnorm.
Qed.

End case.

(** * Further properties of the loaders *)

Lemma readLine_cons b r :
  readLine (String b r) =
  if Ascii.eqb b "010" then Some (EmptyString, r)
  else if Ascii.eqb b "013" then readLine r
  else match readLine r with
       | Some (l, r') => Some (String b l, r')
       | None => Some (String b EmptyString, EmptyString)
       end.
Proof.
  unfold readLine at 1. simpl. destruct (Ascii.eqb b "010"); [done|].
  destruct (Ascii.eqb b "013"); simpl; [done|].
  change (EmptyString +:+ String b EmptyString) with (String b EmptyString).
  rewrite readLine_loop_builder. by destruct (readLine r) as [[l r']|].
Qed.

(** X10. A line read by [readLine] holds no newline and no carriage return; the
    reader is left on a proper suffix of the input.  [readLine] reports the
    end exactly when nothing but carriage returns is left. *)
Theorem readLine_line_and_end r :
  (∀ l r', readLine r = Some (l, r') →
     count_byte "010" l = 0%nat ∧ count_byte "013" l = 0%nat ∧
     (String.length r' < String.length r)%nat ∧
     ∃ consumed, r = consumed +:+ r') ∧
  (readLine r = None ↔ all_bytes (λ b, Ascii.eqb b "013") r = true).
Proof.
  induction r as [|b r [IHsome IHnone]].
  - split; [by intros l r'|]. done.
  - rewrite readLine_cons. simpl.
    destruct (Ascii.eqb b "010") eqn:Hnl.
    { apply Ascii.eqb_eq in Hnl as ->. split; [|done].
      intros l r' [= <- <-]. repeat split; [simpl; lia|].
      by exists (String "010" EmptyString). }
    destruct (Ascii.eqb b "013") eqn:Hcr; simpl.
    + split; [|done]. intros l r' Hr.
      destruct (IHsome l r' Hr) as (? & ? & ? & consumed & ->).
      repeat split; [done|done|simpl; lia|]. by exists (String b consumed).
    + split; [|by destruct (readLine r) as [[??]|]].
      intros l r' Hr. destruct (readLine r) as [[l0 r0]|] eqn:Hread.
      * injection Hr as <- <-.
        destruct (IHsome l0 r0 eq_refl) as (Hn & Hc & Hlen & consumed & ->).
        simpl. rewrite Hnl, Hcr, Hn, Hc.
        repeat split; [lia|]. by exists (String b consumed).
      * injection Hr as <- <-. simpl. rewrite Hnl, Hcr.
        repeat split; [lia|]. exists (String b r). by rewrite append_empty_r.
Qed.


Lemma Split_without s sep : count_byte sep s = 0%nat → Split s sep = [s].
Proof.
  induction s as [|c s IH]; simpl; [done|].
  destruct (Ascii.eqb c sep); simpl; [done|]. intros Hs. by rewrite IH.
Qed.

Lemma pieces_append h rest :
  count_byte "010" h = 0%nat →
  pieces (h +:+ String "010" rest) = without_cr h :: pieces rest.
Proof.
  intros Hh. unfold pieces. induction h as [|c h IH].
  - done.
  - rewrite append_cons. simpl in *.
    destruct (Ascii.eqb c "010"); [done|]. simpl in Hh.
    specialize (IH Hh). destruct (Split (h +:+ String "010" rest) "010") as [|f fs]; [done|].
    simpl in *. injection IH as -> ->. done.
Qed.

(** ** Bounds of strconv.Atoi *)

Lemma digit_val_range c d : digit_val c = Some d → 0 ≤ d ≤ 9.
Proof.
  unfold digit_val.
  destruct ((48 <=? byte_val c)%N && (byte_val c <=? 57)%N) eqn:E; [|done].
  apply andb_prop in E as [?%N.leb_le ?%N.leb_le]. intros [= <-]. lia.
Qed.

Lemma ParseUint_loop_range s n :
  0 ≤ n ≤ maxUint64 → 0 ≤ (ParseUint_loop s n).1 ≤ maxUint64.
Proof.
  revert n. induction s as [|c s IH]; intros n Hn; simpl; [done|].
  destruct (digit_val c) as [d|] eqn:Hd; [|done].
  apply digit_val_range in Hd.
  destruct (Z.geb_spec n (maxUint64 / 10 + 1)); [done|].
  destruct (Z.gtb_spec (n * 10 + d) maxUint64); [done|].
  apply IH. lia.
Qed.

(** The value of [Atoi] is a value of [int]: zero for a string that is no
    number, the nearest bound for a number out of range. *)
Lemma Atoi_value s :
  is_int (Atoi s).1 ∧
  ((Atoi s).2 = Some ErrSyntax → (Atoi s).1 = 0) ∧
  ((Atoi s).2 = Some ErrRange → (Atoi s).1 = 2 ^ 63 - 1 ∨ (Atoi s).1 = - 2 ^ 63).
Proof.
  unfold Atoi, ParseInt, is_int. destruct s as [|c t]; [done|].
  set (neg := Ascii.eqb c "-").
  set (s' := if Ascii.eqb c "+" || neg then t else String c t).
  assert (0 ≤ (ParseUint s').1 ≤ maxUint64) as Hun.
  { unfold ParseUint. destruct s'; [done|]. by apply ParseUint_loop_range. }
  destruct (ParseUint s') as [un [[]|]]; simpl in *; [done| |];
    (destruct neg; simpl;
     [destruct (Z.gtb_spec un (2 ^ 63)) | destruct (Z.geb_spec un (2 ^ 63))];
     simpl; repeat split; try done; try lia;
     try (intros _; by left); try (intros _; by right)).
Qed.

Section more_loaders.
Context `{GoRuntime}.


Lemma LoadCitiesCSV_cities s data :
  cities (LoadCitiesCSV s (Some data)).1 =
  city_of_line <$> filter (λ l, line_ok 6 l = true) (data_lines data).
Proof.
  destruct (skip_header_lines data) as [Hlines Hlen].
  unfold LoadCitiesCSV. cbn [fst cities].
  rewrite LoadCitiesCSV_loop_lines by lia. by rewrite Hlines.
Qed.

(** X12. The first line is the header whatever it holds: a file of one line
    gives no record, and after a header the records are those of the lines
    that follow, the same for every header. *)
Theorem header_line_is_dropped s header rest :
  count_byte "010" header = 0%nat →
  streets (LoadCSV s (Some header)).1 = [] ∧
  cities (LoadCitiesCSV s (Some header)).1 = [] ∧
  streets (LoadCSV s (Some (header +:+ String "010" rest))).1 =
    street_of_line <$> filter (λ l, line_ok 7 l = true) (input_lines rest) ∧
  cities (LoadCitiesCSV s (Some (header +:+ String "010" rest))).1 =
    city_of_line <$> filter (λ l, line_ok 6 l = true) (input_lines rest).
Proof.
  intros Hh. rewrite !LoadCSV_streets, !LoadCitiesCSV_cities.
  assert (data_lines header = []) as ->.
  { unfold data_lines. rewrite input_lines_pieces. unfold pieces.
    rewrite Split_without by done. simpl.
    by destruct (String.eqb (without_cr header) EmptyString). }
  assert (data_lines (header +:+ String "010" rest) = input_lines rest) as ->.
  { unfold data_lines. rewrite !input_lines_pieces, pieces_append by done.
    by destruct (pieces_nonempty rest) as (p & ps & ->). }
  done.
Qed.


(** X14. Every loaded street has a primary name, its display name is made of
    type, name and, when there is one, second name with single spaces
    between, and its six codes are values of [int]; every loaded city has a
    name and codes that are values of [int]. *)
Theorem loaded_records_wellformed s data :
  (∀ x, x ∈ streets (LoadCSV s (Some data)).1 →
     Street.NAZWA1 x ≠ EmptyString ∧
     Street.FullName x =
       (if String.eqb (Street.NAZWA2 x) EmptyString
        then Street.CECHA x +:+ " " +:+ Street.NAZWA1 x
        else Street.CECHA x +:+ " " +:+ Street.NAZWA1 x +:+ " " +:+ Street.NAZWA2 x) ∧
     is_int (Street.WOJ x) ∧ is_int (Street.POW x) ∧ is_int (Street.GMI x) ∧
     is_int (Street.RODZGMI x) ∧ is_int (Street.SYM x) ∧ is_int (Street.SYMUL x)) ∧
  (∀ c, c ∈ cities (LoadCitiesCSV s (Some data)).1 →
     City.NAZWA c ≠ EmptyString ∧
     is_int (City.WOJ c) ∧ is_int (City.POW c) ∧ is_int (City.GMI c) ∧
     is_int (City.RODZGMI c) ∧ is_int (City.RM c) ∧ is_int (City.MZ c) ∧
     is_int (City.SYM c) ∧ is_int (City.SYMPOD c)).
Proof.
  split.
  - intros x Hx. split; [by eapply LoadCSV_names|].
    rewrite LoadCSV_streets in Hx.
    apply list_elem_of_fmap in Hx as (l & -> & _). simpl. split.
    + by destruct (String.eqb (field (line_fields l) 8) EmptyString).
    + repeat split; apply Atoi_value.
  - intros c Hc. rewrite LoadCitiesCSV_cities in Hc.
    apply list_elem_of_fmap in Hc as (l & -> & [Hl _]%list_elem_of_filter).
    simpl. split.
    + unfold line_ok in Hl. apply andb_prop in Hl as [_ Hl].
      by apply negb_true_iff, String.eqb_neq in Hl.
    + repeat split; apply Atoi_value.
Qed.

End more_loaders.

(** ** Quotes around a field, and the start of the program *)

Lemma trimLeftByte_head s c :
  HasPrefix (trimLeftByte s c) (String c EmptyString) = false.
Proof.
  induction s as [|x s IH]; simpl; [done|].
  destruct (Ascii.eqb x c) eqn:E; [done|]. simpl. by rewrite E.
Qed.

Lemma last_byte_unrev r acc :
  last_byte (unrev_bytes r acc) =
  match acc with EmptyString => head r | _ => last_byte acc end.
Proof.
  revert acc. induction r as [|c r IH]; intros acc; simpl.
  - by destruct acc.
  - rewrite IH. by destruct acc.
Qed.

Lemma trimRightByte_rev_head r c : head (trimRightByte_rev r c) ≠ Some c.
Proof.
  induction r as [|x r IH]; simpl; [done|].
  destruct (Ascii.eqb_spec x c); [done|]. simpl. congruence.
Qed.

Lemma trimLeftByte_last s c :
  last_byte s ≠ Some c → last_byte (trimLeftByte s c) ≠ Some c.
Proof.
  induction s as [|x s IH]; simpl; [done|].
  destruct (Ascii.eqb x c); [|done].
  intros Hs. apply IH. by destruct s.
Qed.

(** [strings.Trim] leaves its cut byte at neither end. *)
Lemma Trim_ends s c :
  HasPrefix (Trim s c) (String c EmptyString) = false ∧ last_byte (Trim s c) ≠ Some c.
Proof.
  unfold Trim. split; [apply trimLeftByte_head|].
  apply trimLeftByte_last. unfold trimRightByte. rewrite last_byte_unrev.
  apply trimRightByte_rev_head.
Qed.

Section more_startup.
Context `{GoRuntime}.

(** X15. No text field of a loaded record starts or ends with a double quote. *)
Theorem loaded_fields_unquoted s data :
  let unquoted f :=
    HasPrefix f (String quote EmptyString) = false ∧ last_byte f ≠ Some quote in
  (∀ x, x ∈ streets (LoadCSV s (Some data)).1 →
     unquoted (Street.CECHA x) ∧ unquoted (Street.NAZWA1 x) ∧ unquoted (Street.NAZWA2 x)) ∧
  (∀ c, c ∈ cities (LoadCitiesCSV s (Some data)).1 → unquoted (City.NAZWA c)).
Proof.
  intros unquoted.
  assert (∀ l i, unquoted (field (line_fields l) i)) as Hfield.
  { intros l i. unfold field, line_fields.
    rewrite list_lookup_fmap. destruct (Split l ";" !! i) as [f|]; simpl.
    - apply Trim_ends.
    - done. }
  split.
  - intros x Hx. rewrite LoadCSV_streets in Hx.
    apply list_elem_of_fmap in Hx as (l & -> & _). simpl.
    repeat split; apply Hfield.
  - intros c Hc. rewrite LoadCitiesCSV_cities in Hc.
    apply list_elem_of_fmap in Hc as (l & -> & _). simpl. apply Hfield.
Qed.


End more_startup.

(** * Properties of the handlers *)

Lemma dedup_by_sublist {A} (key : A → string) seen (l : list A) :
  dedup_by key seen l `sublist_of` l.
Proof.
  revert seen. induction l as [|x l IH]; intros seen; simpl; [done|].
  case_decide; [by apply sublist_cons | by apply sublist_skip].
Qed.

Lemma StronglySorted_sublist {A} (R : A → A → Prop) (l1 l2 : list A) :
  l1 `sublist_of` l2 → StronglySorted R l2 → StronglySorted R l1.
Proof.
  induction 1 as [|x l1 l2 Hsub IH|x l1 l2 Hsub IH]; intros Hl2; [done|..].
  - apply StronglySorted_inv in Hl2 as [Hl2 Hx]. constructor; [by apply IH|].
    rewrite Forall_forall in *. intros y Hy. apply Hx.
    by eapply sublist_subseteq.
  - apply StronglySorted_inv in Hl2 as [Hl2 _]. by apply IH.
Qed.

Lemma uniqueResults_loop_scan results uniqueResults seen :
  uniqueResults_loop results uniqueResults seen =
  scan_loop City.NAZWA (λ _, true) None results uniqueResults seen.
Proof.
  revert uniqueResults seen.
  induction results as [|x l IH]; intros uniqueResults seen; simpl; [done|].
  by rewrite !IH.
Qed.

Lemma uniqueResults_loop_first results :
  uniqueResults_loop results [] ∅ = dedup_by City.NAZWA ∅ results.
Proof.
  rewrite uniqueResults_loop_scan, (scan_loop_spec _ _ _ _ _ _ ∅ seen_keys_empty).
  simpl. by rewrite filter_all_true.
Qed.

Lemma filters_map_lookup woj pow gmi k :
  filters_map woj pow gmi !! k =
  if decide (k = "woj") then (if woj >? 0 then Some woj else None)
  else if decide (k = "pow") then (if pow >? 0 then Some pow else None)
  else if decide (k = "gmi") then (if gmi >? 0 then Some gmi else None)
  else None.
Proof.
  unfold filters_map.
  destruct (woj >? 0), (pow >? 0), (gmi >? 0);
    repeat case_decide; simplify_map_eq; done.
Qed.

Lemma string_lt_connected a b : a ≠ b → string_lt b a = false → string_lt a b = true.
Proof.
  intros Hne Hba. destruct (string_lt a b) eqn:Hab; [done|].
  by destruct Hne; apply string_lt_total.
Qed.

(** The value of a key in a map built by insertions. *)
Ltac map_at :=
  repeat (rewrite lookup_insert_ne by done);
  first [rewrite lookup_insert_eq | rewrite lookup_empty].

Section handlers.
Context `{GoRuntime}.

Lemma SearchCities_result_filters s q w p g n r c :
  SearchCities s q w p g n = Returns r → c ∈ r →
  c ∈ cities s ∧
  (0 < w → City.WOJ c = w) ∧ (0 < p → City.POW c = p) ∧ (0 < g → City.GMI c = g).
Proof.
  intros [_ ->]%SearchCities_returns [Hc Hk]%sort_Slice_elem%first_distinct_elem.
  split; [done|]. apply city_filtered_out_sound.
  unfold city_kept in Hk. apply andb_prop in Hk as [Hk _].
  by destruct (city_filtered_out w p g c).
Qed.

Lemma SearchStreets_result_bound s q n r :
  SearchStreets s q n = Returns r → 0 ≤ n → Z.of_nat (length r) ≤ n.
Proof.
  intros Hr Hn. destruct (decide (q = EmptyString)) as [->|Hq].
  { injection Hr as <-. simpl. lia. }
  apply SearchStreets_returns in Hr as [_ ->]; [|done].
  rewrite sort_Slice_length.
  pose proof (first_distinct_length Street.FullName
    (street_matches (ToLower (TrimSpace q))) n (streets s)). lia.
Qed.

Lemma SearchCities_result_bound s q w p g n r :
  SearchCities s q w p g n = Returns r → Z.of_nat (length r) ≤ n.
Proof.
  intros [Hn ->]%SearchCities_returns. rewrite sort_Slice_length.
  pose proof (first_distinct_length city_key
    (city_kept (ToLower (TrimSpace q)) w p g) n (cities s)). lia.
Qed.

(** X17. When the runtime can allocate ten street records, the JSON street
    handler answers every request: the count it reports is the number of
    results and is at most ten, the query is echoed as sent, a request
    without a query has no result, and every result is a stored street whose
    lowercased name contains the lowercased trimmed query. *)
Theorem Api_streetsHandler_answer s r elapsed :
  10 * sizeof_StreetRecord ≤ maxAlloc →
  ∃ w, Api.streetsHandler s r elapsed = Returns w ∧
    header w !! "Content-Type" = Some "application/json" ∧
    StreetAPI.Count (body w) = Z.of_nat (length (StreetAPI.Results (body w))) ∧
    StreetAPI.Count (body w) ≤ 10 ∧
    StreetAPI.Query (body w) = Get (URL_Query r) "q" ∧
    StreetAPI.Time (body w) = elapsed ∧
    (Get (URL_Query r) "q" = EmptyString → StreetAPI.Results (body w) = []) ∧
    (∀ x, x ∈ StreetAPI.Results (body w) →
       x ∈ streets s ∧
       Contains (ToLower (Street.NAZWA1 x))
         (ToLower (TrimSpace (Get (URL_Query r) "q"))) = true).
Proof.
  intros Hcap. unfold Api.streetsHandler.
  destruct (String.eqb_spec (Get (URL_Query r) "q") EmptyString) as [Hq|Hq].
  - eexists. split; [done|]. simpl. rewrite Hq.
    do 6 (split; [done|]). by intros ? ?%elem_of_nil.
  - destruct (SearchStreets_total s (Get (URL_Query r) "q") 10) as [res Hres]; [done|done|].
    rewrite Hres. eexists. split; [done|]. simpl.
    split; [done|]. split; [done|].
    split; [by eapply SearchStreets_result_bound|].
    split; [done|]. split; [done|]. split; [done|].
    apply SearchStreets_returns in Hres as [_ ->]; [|done].
    intros x [Hx Hm]%sort_Slice_elem%first_distinct_elem. split; [done|].
    unfold street_matches in Hm. apply orb_prop in Hm as [Hm|Hm]; [|done].
    by apply HasPrefix_Contains.
Qed.

(** X18. When the runtime can allocate ten city records, the JSON city handler
    answers every request with at most ten results; the filters it reports
    are exactly the parameters woj, pow and gmi whose number is positive,
    every result is a stored city that agrees with each reported filter, and
    a parameter that is no number is no filter. *)
Theorem Api_citiesHandler_answer s r elapsed :
  10 * sizeof_CityRecord ≤ maxAlloc →
  let woj := (Atoi (Get (URL_Query r) "woj")).1 in
  let pow := (Atoi (Get (URL_Query r) "pow")).1 in
  let gmi := (Atoi (Get (URL_Query r) "gmi")).1 in
  ∃ w, Api.citiesHandler s r elapsed = Returns w ∧
    CityAPI.Count (body w) = Z.of_nat (length (CityAPI.Results (body w))) ∧
    CityAPI.Count (body w) ≤ 10 ∧
    (∀ k v, CityAPI.Filters (body w) !! k = Some v ↔
       0 < v ∧ (k = "woj" ∧ v = woj ∨ k = "pow" ∧ v = pow ∨ k = "gmi" ∧ v = gmi)) ∧
    (∀ c, c ∈ CityAPI.Results (body w) →
       c ∈ cities s ∧
       (∀ v, CityAPI.Filters (body w) !! "woj" = Some v → City.WOJ c = v) ∧
       (∀ v, CityAPI.Filters (body w) !! "pow" = Some v → City.POW c = v) ∧
       (∀ v, CityAPI.Filters (body w) !! "gmi" = Some v → City.GMI c = v)) ∧
    ((Atoi (Get (URL_Query r) "woj")).2 = Some ErrSyntax →
       CityAPI.Filters (body w) !! "woj" = None).
Proof.
  intros Hcap woj pow gmi. unfold Api.citiesHandler. fold woj pow gmi.
  destruct (SearchCities_total s (Get (URL_Query r) "q") woj pow gmi 10) as [res Hres];
    [done|done|].
  rewrite Hres. eexists. split; [done|]. simpl.
  split; [done|]. split; [by eapply SearchCities_result_bound|].
  split; [|split].
  - intros k v. rewrite filters_map_lookup.
    repeat case_decide; subst;
      repeat match goal with |- context [?x >? 0] => destruct (Z.gtb_spec x 0) end;
      naive_solver lia.
  - intros c Hc.
    destruct (SearchCities_result_filters _ _ _ _ _ _ _ _ Hres Hc) as (Hin & Hw & Hp & Hg).
    split; [done|]. rewrite !filters_map_lookup. simpl.
    repeat split; intros v;
      match goal with |- context [?x >? 0] => destruct (Z.gtb_spec x 0) end;
      intros [= <-]; naive_solver.
  - intros Herr. rewrite filters_map_lookup. simpl.
    destruct (Atoi_value (Get (URL_Query r) "woj")) as (_ & Hzero & _).
    subst woj. by rewrite (Hzero Herr).
Qed.

(** X19. The handler of the municipalities of a street reports an error
    exactly when the parameter name is missing or empty; otherwise it echoes
    the name as sent and its count is the number of entries; a name of white
    space only is no error and has no entry. *)
Theorem Api_streetGMIHandler_answer s r elapsed :
  let streetName := Get (URL_Query r) "name" in
  let answer := body (Api.streetGMIHandler s r elapsed) in
  (is_Some (answer !! "error") ↔ streetName = EmptyString) ∧
  (streetName = EmptyString →
     answer !! "results" = Some (any_entries []) ∧
     answer !! "count" = Some (any_int 0)) ∧
  (streetName ≠ EmptyString →
     answer !! "street_name" = Some (any_string streetName) ∧
     answer !! "results" = Some (any_entries (GetGMIForStreet s streetName)) ∧
     answer !! "count" =
       Some (any_int (Z.of_nat (length (GetGMIForStreet s streetName)))) ∧
     (TrimSpace streetName = EmptyString →
        answer !! "results" = Some (any_entries []) ∧
        answer !! "count" = Some (any_int 0))).
Proof.
  intros streetName answer. subst answer. unfold Api.streetGMIHandler.
  fold streetName.
  destruct (String.eqb_spec streetName EmptyString) as [Hn|Hn]; simpl.
  - split; [|split; [|done]].
    + split; [done|]. intros _. map_at. by eexists.
    + intros _. split; by map_at.
  - split; [|split; [done|]].
    + split; [|done]. map_at. by intros [??].
    + intros _. split; [by map_at|]. split; [by map_at|]. split; [by map_at|].
      intros Hblank. unfold GetGMIForStreet. rewrite Hblank. simpl.
      split; by map_at.
Qed.

(** X20. A request that is not an HTMX request is answered by the handlers of
    the second variant with the headers and the JSON value of the handlers
    that answer in JSON only. *)
Theorem Htmx_json_answer_is_Api_answer s r elapsed :
  HX_Request r ≠ "true" →
  Htmx.streetsHandler s r elapsed =
    match Api.streetsHandler s r elapsed with
    | Returns w => Returns {| header := header w; body := json (body w) |}
    | Panics => Panics
    end ∧
  Htmx.citiesHandler s r elapsed =
    match Api.citiesHandler s r elapsed with
    | Returns w => Returns {| header := header w; body := json (body w) |}
    | Panics => Panics
    end.
Proof.
  intros Hx%String.eqb_neq. split.
  - unfold Htmx.streetsHandler, Api.streetsHandler. rewrite Hx.
    destruct (String.eqb_spec (Get (URL_Query r) "q") EmptyString) as [->|Hq]; [done|].
    by destruct (SearchStreets s (Get (URL_Query r) "q") 10).
  - unfold Htmx.citiesHandler, Api.citiesHandler. rewrite Hx.
    by destruct (SearchCities _ _ _ _ _ _).
Qed.

(** X21. An HTMX request for cities gets the empty state when it has no query,
    even though the search then matches every city; otherwise it gets either
    the notice that nothing was found or a list of at least one and at most
    ten names, each of a stored city, no name twice, under a count that is
    the number of names; for a query of white space only the names are in
    strict ascending order. *)
Theorem Htmx_citiesHandler_fragment s r elapsed :
  HX_Request r = "true" →
  10 * sizeof_CityRecord ≤ maxAlloc →
  let query := Get (URL_Query r) "q" in
  ∃ w f, Htmx.citiesHandler s r elapsed = Returns w ∧
    header w !! "Content-Type" = Some "text/html" ∧
    body w = html f ∧
    (query = EmptyString → f = empty_state) ∧
    (query ≠ EmptyString →
       f = no_results ∨
       ∃ names, f = results_list (Z.of_nat (length names)) elapsed names ∧
         (1 ≤ length names ≤ 10)%nat ∧
         NoDup names ∧
         (∀ n, n ∈ names → ∃ c, c ∈ cities s ∧ City.NAZWA c = n) ∧
         (TrimSpace query = EmptyString →
            StronglySorted (λ a b, string_lt a b = true) names)).
Proof.
  intros Hx Hcap query. unfold Htmx.citiesHandler. fold query. rewrite Hx.
  set (woj := (Atoi (Get (URL_Query r) "woj")).1).
  set (pow := (Atoi (Get (URL_Query r) "pow")).1).
  set (gmi := (Atoi (Get (URL_Query r) "gmi")).1).
  destruct (SearchCities_total s query woj pow gmi 10) as [res Hres]; [done|done|].
  rewrite Hres. simpl.
  destruct (String.eqb_spec query EmptyString) as [Hq|Hq]; simpl.
  { eexists _, _. repeat split; done. }
  destruct (Z.eqb_spec (Z.of_nat (length res)) 0) as [Hlen|Hlen].
  { eexists _, _. split; [done|]. split; [done|]. split; [done|].
    split; [done|]. intros _. by left. }
  eexists _, _. split; [done|]. split; [done|]. split; [done|].
  split; [done|]. intros _. right.
  exists (map City.NAZWA (uniqueResults_loop res [] ∅)).
  rewrite length_map. split; [done|].
  rewrite uniqueResults_loop_first.
  pose proof (dedup_by_sublist City.NAZWA ∅ res) as Hsub.
  pose proof (SearchCities_result_bound _ _ _ _ _ _ _ Hres) as Hbound.
  assert (NoDup (map City.NAZWA (dedup_by City.NAZWA ∅ res))) as Hnd
    by apply dedup_by_NoDup.
  split; [|split; [done|split]].
  - split.
    + destruct res as [|c res]; [done|]. simpl.
      rewrite decide_False by set_solver. simpl. lia.
    + apply sublist_length in Hsub. lia.
  - intros n (c & -> & Hc)%list_elem_of_fmap. exists c. split; [|done].
    eapply sublist_subseteq in Hc; [|exact Hsub].
    by destruct (SearchCities_result_filters _ _ _ _ _ _ _ _ Hres Hc).
  - intros Hblank. apply sorted_strict; [apply string_lt_connected | done |].
    apply (StronglySorted_fmap _ (λ a b, string_lt (City.NAZWA b) (City.NAZWA a) = false));
      [done|].
    eapply StronglySorted_sublist; [exact Hsub|].
    apply SearchCities_returns in Hres as [_ ->].
    eapply StronglySorted_weaken; [|apply sort_Slice_sorted, city_less_ordering].
    intros a b. unfold not_after, city_less. by rewrite Hblank, ToLower_empty.
Qed.

(** X22. An HTMX request for streets gets the empty state when it has no query,
    the notice that nothing was found when no stored street matches within
    the scan, and otherwise a list of at least one and at most ten display
    names of stored streets, no name twice, under a count that is the number
    of names. *)
Theorem Htmx_streetsHandler_fragment s r elapsed :
  HX_Request r = "true" →
  10 * sizeof_StreetRecord ≤ maxAlloc →
  let query := Get (URL_Query r) "q" in
  ∃ w f, Htmx.streetsHandler s r elapsed = Returns w ∧
    header w !! "Content-Type" = Some "text/html" ∧
    body w = html f ∧
    (query = EmptyString → f = empty_state) ∧
    (query ≠ EmptyString →
       (f = no_results ∧
        ∀ x, x ∈ streets s →
          street_matches (ToLower (TrimSpace query)) x = false) ∨
       ∃ names, f = results_list (Z.of_nat (length names)) elapsed names ∧
         (1 ≤ length names ≤ 10)%nat ∧
         NoDup names ∧
         (∀ n, n ∈ names → ∃ x, x ∈ streets s ∧ Street.FullName x = n)).
Proof.
  intros Hx Hcap query. unfold Htmx.streetsHandler. fold query. rewrite Hx.
  destruct (SearchStreets_total s query 10) as [res Hres]; [done|done|].
  rewrite Hres. simpl.
  destruct (String.eqb_spec query EmptyString) as [Hq|Hq]; simpl.
  { eexists _, _. repeat split; done. }
  pose proof (SearchStreets_result_bound _ _ _ _ Hres ltac:(done)) as Hbound.
  pose proof Hres as [_ Hr]%SearchStreets_returns; [|done].
  destruct (Z.eqb_spec (Z.of_nat (length res)) 0) as [Hlen|Hlen].
  { eexists _, _. split; [done|]. split; [done|]. split; [done|].
    split; [done|]. intros _. left. split; [done|].
    apply (first_distinct_empty Street.FullName _ 10); [done|].
    destruct res; [|simpl in Hlen; lia].
    apply Permutation_nil_r. rewrite Hr. symmetry. apply sort_Slice_perm. }
  eexists _, _. split; [done|]. split; [done|]. split; [done|].
  split; [done|]. intros _. right.
  exists (map Street.FullName res). rewrite length_map. split; [done|].
  split; [|split].
  - lia.
  - rewrite Hr, sort_Slice_perm. apply first_distinct_NoDup.
  - intros n (x & -> & Hin)%list_elem_of_fmap. exists x. split; [|done].
    rewrite Hr in Hin. by apply sort_Slice_elem, first_distinct_elem in Hin as [??].
Qed.

End handlers.

(** * Examples *)

(** ** Insertion sort meets the contract of sort.Slice *)

Lemma insert_sorted_perm {A} (less : A → A → bool) x l :
  insert_sorted less x l ≡ₚ x :: l.
Proof.
  induction l as [|y l IH]; simpl; [done|].
  destruct (less x y); [done|]. rewrite IH. apply Permutation_swap.
Qed.

Lemma insertion_sort_perm {A} (less : A → A → bool) l :
  insertion_sort less l ≡ₚ l.
Proof.
  unfold insertion_sort.
  enough (∀ acc, fold_left (λ acc x, insert_sorted less x acc) l acc ≡ₚ l ++ acc) as Hgen.
  { by rewrite Hgen, app_nil_r. }
  induction l as [|x l IH]; intros acc; simpl; [done|].
  rewrite IH, insert_sorted_perm. by rewrite Permutation_middle.
Qed.

Lemma insert_sorted_sorted {A} (less : A → A → bool) x l :
  less_ordering less →
  StronglySorted (not_after less) l →
  StronglySorted (not_after less) (insert_sorted less x l).
Proof.
  intros (Hirr & Htr & _). induction l as [|y l IH]; simpl; intros Hl.
  - repeat constructor.
  - apply StronglySorted_inv in Hl as [Hl Hy].
    destruct (less x y) eqn:Hxy.
    + constructor; [by constructor|]. unfold not_after in *. constructor.
      * destruct (less y x) eqn:Hyx; [|done].
        by rewrite <- (Hirr x), <- (Htr _ _ _ Hxy Hyx).
      * eapply Forall_impl; [exact Hy|]. simpl. intros z Hzy.
        destruct (less z x) eqn:Hzx; [|done].
        by rewrite <- Hzy, <- (Htr _ _ _ Hzx Hxy).
    + constructor; [by apply IH|].
      rewrite insert_sorted_perm. by constructor.
Qed.

Lemma insertion_sort_sorted {A} (less : A → A → bool) l :
  less_ordering less → StronglySorted (not_after less) (insertion_sort less l).
Proof.
  intros Hless. unfold insertion_sort.
  enough (∀ acc, StronglySorted (not_after less) acc →
            StronglySorted (not_after less)
              (fold_left (λ acc x, insert_sorted less x acc) l acc)) as Hgen.
  { apply Hgen. constructor. }
  induction l as [|x l IH]; intros acc Hacc; simpl; [done|].
  apply IH. by apply insert_sorted_sorted.
Qed.

(** The runtime used to evaluate the operations on inputs made of ASCII
    bytes, where the Unicode paths are never taken; the allocation limit is
    that of a 48-bit address space. *)
Definition reference_runtime : GoRuntime :=
  {| MapToLower := λ s, s;
     TrimFuncIsSpace := λ s, s;
     TrimRightFuncIsSpace := λ s, s;
     maxAlloc := 2 ^ 48;
     maxAlloc_nonneg := ltac:(done);
     MapToLower_nonempty := λ s Hs, Hs;
     sort_Slice := @insertion_sort;
     sort_Slice_perm := @insertion_sort_perm;
     sort_Slice_sorted := @insertion_sort_sorted |}.

(** ** The scenarios of the specification *)

Definition newline : string := String "010" EmptyString.

(** A street file: the header, two lines of the same street, a line without
    a name, a line of nine fields, and a last line without a newline. *)
Definition streets_csv : string :=
  "WOJ;POW;GMI;RODZ_GMI;SYM;SYM_UL;CECHA;NAZWA_1;NAZWA_2;STAN_NA" +:+ newline +:+
  "12;34;56;1;100;200;ul.;Chopina;;x" +:+ newline +:+
  "12;34;56;1;101;201;ul.;Chopina;;x" +:+ newline +:+
  "12;34;56;1;102;202;ul.;;;x" +:+ newline +:+
  "12;34;56;1;103;203;ul.;Nine;" +:+ newline +:+
  "02;03;04;1;104;204;al.; Jana Chopina ;Pawla;x".

Definition chopina (sym symul : Z) : StreetRecord :=
  {| Street.WOJ := 12; Street.POW := 34; Street.GMI := 56; Street.RODZGMI := 1;
     Street.SYM := sym; Street.SYMUL := symul; Street.CECHA := "ul.";
     Street.NAZWA1 := "Chopina"; Street.NAZWA2 := EmptyString;
     Street.FullName := "ul. Chopina" |}.

Definition jana_chopina : StreetRecord :=
  {| Street.WOJ := 2; Street.POW := 3; Street.GMI := 4; Street.RODZGMI := 1;
     Street.SYM := 104; Street.SYMUL := 204; Street.CECHA := "al.";
     Street.NAZWA1 := "Jana Chopina"; Street.NAZWA2 := "Pawla";
     Street.FullName := "al. Jana Chopina Pawla" |}.

Definition chopinowska : StreetRecord :=
  {| Street.WOJ := 12; Street.POW := 34; Street.GMI := 57; Street.RODZGMI := 1;
     Street.SYM := 105; Street.SYMUL := 205; Street.CECHA := "ul.";
     Street.NAZWA1 := "Chopinowska"; Street.NAZWA2 := EmptyString;
     Street.FullName := "ul. Chopinowska" |}.

Definition adamowo (woj : Z) : CityRecord :=
  {| City.WOJ := woj; City.POW := 1; City.GMI := 1; City.RODZGMI := 2;
     City.RM := 1; City.MZ := 1; City.NAZWA := "Adamowo";
     City.SYM := 100 + woj; City.SYMPOD := 100 + woj |}.

Definition loaded : AutocompleteService :=
  (LoadCSV (H := reference_runtime) NewAutocompleteService (Some streets_csv)).1.

Definition two_chopina_then_chopinowska : AutocompleteService :=
  {| streets := [chopina 100 200; chopina 101 201; chopinowska]; cities := [] |}.

Definition two_adamowo : AutocompleteService :=
  {| streets := []; cities := [adamowo 2; adamowo 4] |}.

Example load_streets_csv :
  streets loaded = [chopina 100 200; chopina 101 201; jana_chopina].
Proof. vm_compute. reflexivity. Qed.

Example search_chop :
  SearchStreets (H := reference_runtime) loaded "chop" 10
  = Returns [chopina 100 200; jana_chopina].
Proof. vm_compute. reflexivity. Qed.

Example gmi_for_chopina :
  GetGMIForStreet (H := reference_runtime) loaded "Chopina" = [(12, 34, 56)].
Proof. vm_compute. reflexivity. Qed.

Example atoi_out_of_range :
  Atoi "99999999999999999999" = (2 ^ 63 - 1, Some ErrRange) ∧
  Atoi "12a" = (0, Some ErrSyntax) ∧ Atoi "-12" = (-12, None).
Proof. vm_compute. done. Qed.

(** The line of nine fields and the line without a name give no record. *)
Example nine_fields_skipped :
  length (Split "12;34;56;1;103;203;ul.;Nine;" ";") = 9%nat ∧
  line_ok (H := reference_runtime) 7 "12;34;56;1;103;203;ul.;Nine;" = false ∧
  line_ok (H := reference_runtime) 7 "12;34;56;1;102;202;ul.;;;x" = false ∧
  SearchStreets (H := reference_runtime) loaded "nine" 10 = Returns [].
Proof. vm_compute. done. Qed.

(** ** The theorems at these inputs *)

Lemma SearchStreets_bounded_matching_prefix_first_witness :
  "chop" ≠ EmptyString ∧
  ∃ r, SearchStreets (H := reference_runtime) loaded "chop" 10 = Returns r ∧
       Z.of_nat (length r) ≤ 10 ∧
       (∀ x, x ∈ r →
          Contains (ToLower (H := reference_runtime) (Street.NAZWA1 x)) "chop" = true) ∧
       (∀ i j a b, r !! i = Some a → r !! j = Some b →
          HasPrefix (ToLower (H := reference_runtime) (Street.NAZWA1 a)) "chop" = true →
          HasPrefix (ToLower (H := reference_runtime) (Street.NAZWA1 b)) "chop" = false →
          (i < j)%nat).
Proof.
  assert ("chop" ≠ EmptyString) as Hq by discriminate.
  split; [exact Hq|].
  destruct (SearchStreets_bounded_matching_prefix_first
              (H := reference_runtime) loaded "chop" 10 Hq) as [Htotal Hresult].
  destruct Htotal as [r Hr]; [lia | vm_compute; discriminate |].
  exists r. split; [exact Hr|]. exact (Hresult r Hr).
Defined.

Lemma whitespace_query_collects_first_records_witness :
  "  " ≠ EmptyString ∧
  all_bytes asciiSpace "  " = true ∧
  0 < 2 ∧ 2 * sizeof_StreetRecord ≤ maxAlloc (GoRuntime := reference_runtime) ∧
  TrimSpace (H := reference_runtime) "  " = EmptyString ∧
  (∀ x, street_matches (H := reference_runtime) EmptyString x = true) ∧
  SearchStreets_loop (H := reference_runtime) EmptyString 2 (streets loaded) [] ∅
    = [chopina 100 200; jana_chopina] ∧
  ∃ r, SearchStreets (H := reference_runtime) loaded "  " 2 = Returns r ∧
       Search (H := reference_runtime) loaded "  " 2 = Returns r ∧
       r ≡ₚ [chopina 100 200; jana_chopina] ∧
       StronglySorted (λ a b, string_lt (Street.NAZWA1 b) (Street.NAZWA1 a) = false) r ∧
       (streets loaded ≠ [] → r ≠ []).
Proof.
  assert ("  " ≠ EmptyString) as Hq by discriminate.
  assert (all_bytes asciiSpace "  " = true) as Hspace by reflexivity.
  assert (0 < 2) as Hpos by lia.
  assert (2 * sizeof_StreetRecord ≤ maxAlloc (GoRuntime := reference_runtime)) as Hcap
    by (vm_compute; discriminate).
  split; [exact Hq|]. split; [exact Hspace|]. split; [exact Hpos|]. split; [exact Hcap|].
  exact (whitespace_query_collects_first_records
           (H := reference_runtime) loaded "  " 2 Hq Hspace Hpos Hcap).
Defined.

(** ** Where the code departs from the specification *)

(** C1. With a negative limit the allocation of the result slice panics:
    [SearchStreets] on a query that is not empty and [SearchCities] do not
    return the empty result. *)
Lemma negative_limit_panics :
  SearchStreets (H := reference_runtime) loaded "chop" (-1) = Panics ∧
  SearchCities (H := reference_runtime) two_adamowo EmptyString 0 0 0 (-1) = Panics ∧
  SearchCities (H := reference_runtime) two_adamowo EmptyString 0 0 0 (-1) ≠ Returns [].
Proof. vm_compute. repeat split; discriminate. Qed.


(** C9. After two matches of one display name the scan with the limit 2
    goes on and collects a third match; counting the dropped duplicate
    towards the limit would stop it with one record. *)
Lemma dropped_duplicate_not_counted :
  SearchStreets_loop (H := reference_runtime) "chop" 2
      (streets two_chopina_then_chopinowska) [] ∅
    = [chopina 100 200; chopinowska] ∧
  first_counting_duplicates Street.FullName
      (street_matches (H := reference_runtime) "chop") 2
      (streets two_chopina_then_chopinowska)
    = [chopina 100 200] ∧
  SearchStreets (H := reference_runtime) two_chopina_then_chopinowska "chop" 2
    = Returns [chopina 100 200; chopinowska].
Proof. vm_compute. repeat split; reflexivity. Qed.

(** ** The further properties at concrete inputs *)

Definition city (nazwa : string) (woj : Z) : CityRecord :=
  {| City.WOJ := woj; City.POW := 1; City.GMI := 1; City.RODZGMI := 2;
     City.RM := 1; City.MZ := 1; City.NAZWA := nazwa;
     City.SYM := 100 + woj; City.SYMPOD := 100 + woj |}.

Definition demo : AutocompleteService :=
  {| streets := [chopina 100 200; chopina 101 201; jana_chopina];
     cities := [city "Nowy Krakow" 12; city "Krakowiec" 18; city "Krakow" 12;
                city "Adamowo" 2; city "Adamowo" 4] |}.

(** A request with the given query parameters and HX-Request header. *)
Definition request (params : list (string * string)) (hx : string) : Request :=
  {| URL_Query := list_to_map ((λ p, (p.1, [p.2])) <$> params);
     HX_Request := hx |}.

#[local] Abbreviation rt := reference_runtime.

Lemma capacity_for_ten_streets :
  10 * sizeof_StreetRecord ≤ maxAlloc (GoRuntime := rt).
Proof. vm_compute. discriminate. Defined.

Lemma capacity_for_ten_cities :
  10 * sizeof_CityRecord ≤ maxAlloc (GoRuntime := rt).
Proof. vm_compute. discriminate. Defined.

Lemma SearchStreets_stored_and_ordered_in_groups_witness :
  SearchStreets (H := rt) demo "chop" 10 = Returns [chopina 100 200; jana_chopina] ∧
  (∀ x, x ∈ [chopina 100 200; jana_chopina] → x ∈ streets demo) ∧
  (∀ i j a b, [chopina 100 200; jana_chopina] !! i = Some a →
     [chopina 100 200; jana_chopina] !! j = Some b → (i < j)%nat →
     HasPrefix (ToLower (H := rt) (Street.NAZWA1 a)) "chop"
       = HasPrefix (ToLower (H := rt) (Street.NAZWA1 b)) "chop" →
     string_lt (Street.NAZWA1 b) (Street.NAZWA1 a) = false).
Proof.
  assert (SearchStreets (H := rt) demo "chop" 10
          = Returns [chopina 100 200; jana_chopina]) as Hr by (vm_compute; reflexivity).
  split; [exact Hr|].
  exact (SearchStreets_stored_and_ordered_in_groups (H := rt) demo "chop" 10 _ Hr).
Defined.

Lemma SearchStreets_short_result_complete_witness :
  "chop" ≠ EmptyString ∧
  SearchStreets (H := rt) demo "chop" 10 = Returns [chopina 100 200; jana_chopina] ∧
  Z.of_nat (length [chopina 100 200; jana_chopina]) < 10 ∧
  ∀ x, x ∈ streets demo → street_matches (H := rt) "chop" x = true →
    ∃ y, y ∈ [chopina 100 200; jana_chopina] ∧ Street.FullName y = Street.FullName x.
Proof.
  assert ("chop" ≠ EmptyString) as Hq by discriminate.
  assert (SearchStreets (H := rt) demo "chop" 10
          = Returns [chopina 100 200; jana_chopina]) as Hr by (vm_compute; reflexivity).
  assert (Z.of_nat (length [chopina 100 200; jana_chopina]) < 10) as Hshort
    by (vm_compute; reflexivity).
  split; [exact Hq|]. split; [exact Hr|]. split; [exact Hshort|].
  exact (SearchStreets_short_result_complete (H := rt) demo "chop" 10 _ Hq Hr Hshort).
Defined.

Lemma SearchStreets_limit_monotone_witness :
  1 ≤ 10 ∧
  SearchStreets (H := rt) demo "chop" 1 = Returns [chopina 100 200] ∧
  SearchStreets (H := rt) demo "chop" 10 = Returns [chopina 100 200; jana_chopina] ∧
  SearchStreets_loop (H := rt) "chop" 1 (streets demo) [] ∅
    `prefix_of` SearchStreets_loop (H := rt) "chop" 10 (streets demo) [] ∅ ∧
  ∀ x, x ∈ [chopina 100 200] → x ∈ [chopina 100 200; jana_chopina].
Proof.
  assert (1 ≤ 10) as Hle by lia.
  assert (SearchStreets (H := rt) demo "chop" 1 = Returns [chopina 100 200]) as Hr
    by (vm_compute; reflexivity).
  assert (SearchStreets (H := rt) demo "chop" 10
          = Returns [chopina 100 200; jana_chopina]) as Hr' by (vm_compute; reflexivity).
  split; [exact Hle|]. split; [exact Hr|]. split; [exact Hr'|].
  exact (SearchStreets_limit_monotone (H := rt) demo "chop" 1 10 _ _ Hle Hr Hr').
Defined.

Lemma SearchCities_bounded_matching_ranked_witness :
  SearchCities (H := rt) demo "krak" 0 0 0 10
    = Returns [city "Krakow" 12; city "Krakowiec" 18; city "Nowy Krakow" 12] ∧
  Z.of_nat (length [city "Krakow" 12; city "Krakowiec" 18; city "Nowy Krakow" 12]) ≤ 10 ∧
  (∀ c, c ∈ [city "Krakow" 12; city "Krakowiec" 18; city "Nowy Krakow" 12] →
     c ∈ cities demo ∧
     ("krak" ≠ EmptyString →
        Contains (ToLower (H := rt) (City.NAZWA c)) "krak" = true)).
Proof.
  assert (SearchCities (H := rt) demo "krak" 0 0 0 10
    = Returns [city "Krakow" 12; city "Krakowiec" 18; city "Nowy Krakow" 12]) as Hr
    by (vm_compute; reflexivity).
  split; [exact Hr|].
  destruct (SearchCities_bounded_matching_ranked (H := rt) demo "krak" 0 0 0 10 _ Hr)
    as (Hbound & Hmatch & _).
  split; [exact Hbound | exact Hmatch].
Defined.

Lemma SearchCities_short_result_complete_witness :
  (∀ c, c ∈ cities demo → 0 ≤ City.WOJ c ∧ 0 ≤ City.POW c ∧ 0 ≤ City.GMI c) ∧
  SearchCities (H := rt) demo "adam" 0 0 0 10
    = Returns [city "Adamowo" 2; city "Adamowo" 4] ∧
  Z.of_nat (length [city "Adamowo" 2; city "Adamowo" 4]) < 10 ∧
  ∀ c, c ∈ cities demo → city_kept (H := rt) "adam" 0 0 0 c = true →
    ∃ c', c' ∈ [city "Adamowo" 2; city "Adamowo" 4] ∧ city_tuple c' = city_tuple c.
Proof.
  assert (∀ c, c ∈ cities demo → 0 ≤ City.WOJ c ∧ 0 ≤ City.POW c ∧ 0 ≤ City.GMI c)
    as Hcodes.
  { intros c Hc. simpl in Hc.
    repeat (apply elem_of_cons in Hc as [->|Hc]; [simpl; lia|]).
    by apply elem_of_nil in Hc. }
  assert (SearchCities (H := rt) demo "adam" 0 0 0 10
    = Returns [city "Adamowo" 2; city "Adamowo" 4]) as Hr by (vm_compute; reflexivity).
  assert (Z.of_nat (length [city "Adamowo" 2; city "Adamowo" 4]) < 10) as Hshort
    by (vm_compute; reflexivity).
  split; [exact Hcodes|]. split; [exact Hr|]. split; [exact Hshort|].
  exact (SearchCities_short_result_complete (H := rt) demo "adam" 0 0 0 10 _
           Hcodes Hr Hshort).
Defined.

Lemma exact_name_found_by_search_witness :
  GetGMIForStreet (H := rt) demo "chopina" ≠ [] ∧
  0 < 1 ∧ 1 * sizeof_StreetRecord ≤ maxAlloc (GoRuntime := rt) ∧
  ∃ r, SearchStreets (H := rt) demo "chopina" 1 = Returns r ∧ r ≠ [].
Proof.
  assert (GetGMIForStreet (H := rt) demo "chopina" ≠ []) as Hfound
    by (vm_compute; discriminate).
  assert (0 < 1) as Hpos by lia.
  assert (1 * sizeof_StreetRecord ≤ maxAlloc (GoRuntime := rt)) as Hcap
    by (vm_compute; discriminate).
  split; [exact Hfound|]. split; [exact Hpos|]. split; [exact Hcap|].
  exact (exact_name_found_by_search (H := rt) demo "chopina" 1 Hfound Hpos Hcap).
Defined.

Lemma header_line_is_dropped_witness :
  count_byte "010" "12;34;56;1;100;200;ul.;Chopina;;x" = 0%nat ∧
  streets (LoadCSV (H := rt) NewAutocompleteService
             (Some "12;34;56;1;100;200;ul.;Chopina;;x")).1 = [] ∧
  streets (LoadCSV (H := rt) NewAutocompleteService
             (Some ("12;34;56;1;100;200;ul.;Chopina;;x" +:+ String "010"
                      "12;34;56;1;101;201;ul.;Chopina;;x"))).1
    = street_of_line (H := rt) <$>
        filter (λ l, line_ok (H := rt) 7 l = true)
          (input_lines "12;34;56;1;101;201;ul.;Chopina;;x").
Proof.
  assert (count_byte "010" "12;34;56;1;100;200;ul.;Chopina;;x" = 0%nat) as Hh
    by reflexivity.
  split; [exact Hh|].
  destruct (header_line_is_dropped (H := rt) NewAutocompleteService
              "12;34;56;1;100;200;ul.;Chopina;;x"
              "12;34;56;1;101;201;ul.;Chopina;;x" Hh) as (H1 & _ & H3 & _).
  split; [exact H1 | exact H3].
Defined.

Lemma Api_streetsHandler_answer_witness :
  10 * sizeof_StreetRecord ≤ maxAlloc (GoRuntime := rt) ∧
  ∃ w, Api.streetsHandler (H := rt) demo (request [("q", "Chop")] EmptyString) "1ms"
       = Returns w ∧
    StreetAPI.Count (body w) = Z.of_nat (length (StreetAPI.Results (body w))) ∧
    StreetAPI.Count (body w) ≤ 10.
Proof.
  split; [exact capacity_for_ten_streets|].
  destruct (Api_streetsHandler_answer (H := rt) demo (request [("q", "Chop")] EmptyString)
              "1ms" capacity_for_ten_streets) as (w & Hw & _ & Hcount & Hten & _).
  exists w. split; [exact Hw|]. split; [exact Hcount | exact Hten].
Defined.

Lemma Api_citiesHandler_answer_witness :
  10 * sizeof_CityRecord ≤ maxAlloc (GoRuntime := rt) ∧
  ∃ w, Api.citiesHandler (H := rt) demo
         (request [("q", "krak"); ("woj", "12"); ("pow", "x")] EmptyString) "1ms"
       = Returns w ∧
    CityAPI.Count (body w) = Z.of_nat (length (CityAPI.Results (body w))) ∧
    CityAPI.Count (body w) ≤ 10 ∧
    ∀ c, c ∈ CityAPI.Results (body w) →
      c ∈ cities demo ∧
      (∀ v, CityAPI.Filters (body w) !! "woj" = Some v → City.WOJ c = v) ∧
      (∀ v, CityAPI.Filters (body w) !! "pow" = Some v → City.POW c = v) ∧
      (∀ v, CityAPI.Filters (body w) !! "gmi" = Some v → City.GMI c = v).
Proof.
  split; [exact capacity_for_ten_cities|].
  destruct (Api_citiesHandler_answer (H := rt) demo
              (request [("q", "krak"); ("woj", "12"); ("pow", "x")] EmptyString)
              "1ms" capacity_for_ten_cities)
    as (w & Hw & Hcount & Hten & _ & Hres & _).
  exists w. split; [exact Hw|]. split; [exact Hcount|]. split; [exact Hten | exact Hres].
Defined.

Lemma Htmx_json_answer_is_Api_answer_witness :
  HX_Request (request [("q", "chop")] EmptyString) ≠ "true" ∧
  Htmx.streetsHandler (H := rt) demo (request [("q", "chop")] EmptyString) "1ms" =
    match Api.streetsHandler (H := rt) demo (request [("q", "chop")] EmptyString) "1ms" with
    | Returns w => Returns {| header := header w; body := json (body w) |}
    | Panics => Panics
    end.
Proof.
  assert (HX_Request (request [("q", "chop")] EmptyString) ≠ "true") as Hx
    by discriminate.
  split; [exact Hx|].
  exact (proj1 (Htmx_json_answer_is_Api_answer (H := rt) demo
                  (request [("q", "chop")] EmptyString) "1ms" Hx)).
Defined.

Lemma Htmx_citiesHandler_fragment_witness :
  HX_Request (request [("q", "adam")] "true") = "true" ∧
  10 * sizeof_CityRecord ≤ maxAlloc (GoRuntime := rt) ∧
  ∃ w f, Htmx.citiesHandler (H := rt) demo (request [("q", "adam")] "true") "1ms"
         = Returns w ∧
    header w !! "Content-Type" = Some "text/html" ∧
    body w = html f.
Proof.
  assert (HX_Request (request [("q", "adam")] "true") = "true") as Hx by reflexivity.
  split; [exact Hx|]. split; [exact capacity_for_ten_cities|].
  destruct (Htmx_citiesHandler_fragment (H := rt) demo (request [("q", "adam")] "true")
              "1ms" Hx capacity_for_ten_cities) as (w & f & Hw & Hh & Hb & _).
  exists w, f. split; [exact Hw|]. split; [exact Hh | exact Hb].
Defined.

Lemma Htmx_streetsHandler_fragment_witness :
  HX_Request (request [("q", "chop")] "true") = "true" ∧
  10 * sizeof_StreetRecord ≤ maxAlloc (GoRuntime := rt) ∧
  ∃ w f, Htmx.streetsHandler (H := rt) demo (request [("q", "chop")] "true") "1ms"
         = Returns w ∧
    header w !! "Content-Type" = Some "text/html" ∧
    body w = html f.
Proof.
  assert (HX_Request (request [("q", "chop")] "true") = "true") as Hx by reflexivity.
  split; [exact Hx|]. split; [exact capacity_for_ten_streets|].
  destruct (Htmx_streetsHandler_fragment (H := rt) demo (request [("q", "chop")] "true")
              "1ms" Hx capacity_for_ten_streets) as (w & f & Hw & Hh & Hb & _).
  exists w, f. split; [exact Hw|]. split; [exact Hh | exact Hb].
Defined.

Lemma queries_ignore_case_witness :
  all_bytes is_ascii_byte "CHOPina" = true ∧
  all_bytes is_ascii_byte "chopINA" = true ∧
  map_bytes lower_byte "CHOPina" = map_bytes lower_byte "chopINA" ∧
  SearchStreets (H := rt) demo "CHOPina" 10 = SearchStreets (H := rt) demo "chopINA" 10 ∧
  SearchCities (H := rt) demo "CHOPina" 0 0 0 10
    = SearchCities (H := rt) demo "chopINA" 0 0 0 10 ∧
  GetGMIForStreet (H := rt) demo "CHOPina" = GetGMIForStreet (H := rt) demo "chopINA".
Proof.
  assert (all_bytes is_ascii_byte "CHOPina" = true) as H1 by reflexivity.
  assert (all_bytes is_ascii_byte "chopINA" = true) as H2 by reflexivity.
  assert (map_bytes lower_byte "CHOPina" = map_bytes lower_byte "chopINA") as Hsame
    by reflexivity.
  split; [exact H1|]. split; [exact H2|]. split; [exact Hsame|].
  exact (queries_ignore_case (H := rt) demo "CHOPina" "chopINA" 0 0 0 10 H1 H2 Hsame).
Defined.

(** The handlers on the requests above. *)
Example cities_fragment_one_name :
  Htmx.citiesHandler (H := rt) demo (request [("q", "adam")] "true") "1ms"
  = Returns {| header := html_header;
               body := html (results_list 1 "1ms" ["Adamowo"]) |}.
Proof. vm_compute. reflexivity. Qed.

Example cities_json_non_numeric_filter :
  body <$> (match Api.citiesHandler (H := rt) demo
                    (request [("q", "krak"); ("woj", "12"); ("pow", "x")] EmptyString)
                    "1ms" with
            | Returns w => Some w
            | Panics => None
            end)
  = Some {| CityAPI.Query := "krak";
            CityAPI.Filters := {["woj" := 12]};
            CityAPI.Results := [city "Krakow" 12; city "Nowy Krakow" 12];
            CityAPI.Count := 2;
            CityAPI.Time := "1ms" |}.
Proof. vm_compute. reflexivity. Qed.
